(** * LightGUIAgent: grid coordinates, decision protocol and step loop

    A shallow embedding of [lightguiagent/grid_converter.py],
    [lightguiagent/claude_client.py] and [lightguiagent/agent.py], with the
    part of [settings.py] that derives the density and the cell size of a
    grid and the geometry of [lightguiagent/grid_overlay.py].

    Conventions of the embedding.
    - A Python [int] is a [Z].  A Python [str] is a [string]; the string
      methods used by the code ([strip], [upper], [int(...)]) are modelled
      on ASCII text.
    - A Python [float] is a value of a type [F] with the operations of the
      class [PyFloat].  IEEE 754 double precision, the arithmetic of
      CPython, is given twice: [binary64] on the primitive floats, which
      evaluates, and [ieee], every operation the exact result rounded to
      nearest with ties to even, over which the general statements are
      proved; the two are compared on samples.  A third instance, [exact],
      is rational arithmetic without rounding: the real-valued reading of
      [W/C], which the code does not compute and which serves for
      comparison only.
    - An exception is a value of [exn]; a computation that may raise has
      type [result A].
    - A [dict] with string keys is a [gmap string pyval].
    - The device, the file system, the image library and the decision model
      are collaborators: functions on an abstract [world] that may raise.
      Printing, logging, sleeping and the token counters are left out; an
      image object counts as true.
    - The overlay of a screenshot is the list of the calls made on the
      drawing context of its image. *)

From Stdlib Require Import ZArith QArith Qround Qabs Qpower Floats String Ascii.
From Stdlib Require Import DecimalString DecimalZ DecimalN DecimalPos Lia Lqa.
From stdpp Require Import gmap strings list.

Local Open Scope string_scope.
Local Open Scope Z_scope.

#[local] Set Warnings "-register-all,-inexact-float".

(** ** Python values and exceptions *)

(** Values found in a decoded JSON document.  JSON numbers are restricted to
    integers. *)
Inductive pyval :=
| PNone
| PBool (b : bool)
| PInt (z : Z)
| PStr (s : string)
| PList (l : list pyval)
| PDict (d : gmap string pyval).

(** One constructor per [raise] site of the three modules, then the built-in
    exceptions the code can run into, then what the collaborators raise. *)
Inductive exn :=
(* grid_converter.py *)
| InvalidGridFormat (grid_str : string)
| InvalidColumn (col_letter : string)
| RowNotANumber (row_str : string)
| RowOutOfRange (row : Z)
(* claude_client.py *)
| NoTextContent
| InvalidJSON (text : string)
| MissingActionField
| InvalidActionType (action_type : pyval)
| ClickRequiresGrid
| RequiresValue (action_type : pyval)
| InvalidScrollValue (value : pyval)
| ApiCallFailed (max_retries : Z) (cause : exn)
(* agent.py *)
| ScreenshotPullFailed
(* built-in *)
| PyValueError
| PyIndexError
| PyKeyError
| PyTypeError
| PyAttributeError
| PyZeroDivisionError
| PyOverflowError
| KeyboardInterrupt
(* raised by a collaborator (API transport, subprocess, image library) *)
| External (name : string).

(** [except Exception] catches everything but [KeyboardInterrupt]. *)
Definition is_Exception (e : exn) : bool :=
  match e with KeyboardInterrupt => false | _ => true end.

(** The classes the code calls [ValueError]. *)
Definition is_ValueError (e : exn) : bool :=
  match e with
  | InvalidGridFormat _ | InvalidColumn _ | RowNotANumber _ | RowOutOfRange _
  | NoTextContent | InvalidJSON _ | MissingActionField | InvalidActionType _
  | ClickRequiresGrid | RequiresValue _ | InvalidScrollValue _
  | PyValueError => true
  | _ => false
  end.

Inductive result (A : Type) :=
| OK (a : A)
| Raise (e : exn).
Arguments OK {A} a.
Arguments Raise {A} e.

#[global] Instance result_ret : MRet result := @OK.
#[global] Instance result_bind : MBind result :=
  fun A B f m => match m with OK a => f a | Raise e => Raise e end.

(** ** Strings *)

Definition nl : string := String "010"%char "".
Definition dquote : string := String "034"%char "".

(** [str.isspace] on ASCII: TAB, LF, VT, FF, CR, FS, GS, RS, US and space. *)
Definition is_space (a : ascii) : bool :=
  let n := N_of_ascii a in
  ((9 <=? n) && (n <=? 13) || (28 <=? n) && (n <=? 32))%N.

Definition is_digit (a : ascii) : bool :=
  let n := N_of_ascii a in ((48 <=? n) && (n <=? 57))%N.

Definition upper_ascii (a : ascii) : ascii :=
  let n := N_of_ascii a in
  if ((97 <=? n) && (n <=? 122))%N then ascii_of_N (n - 32) else a.

Fixpoint upper (s : string) : string :=
  match s with
  | "" => ""
  | String a r => String (upper_ascii a) (upper r)
  end.

Fixpoint lstrip (s : string) : string :=
  match s with
  | "" => ""
  | String a r => if is_space a then lstrip r else s
  end.

Definition rstrip (s : string) : string := String.rev (lstrip (String.rev s)).

Definition strip (s : string) : string := rstrip (lstrip s).

(** [s.startswith(p)] *)
Definition startswith (p s : string) : bool := String.prefix p s.

(** [needle in s] for two strings. *)
Fixpoint str_contains (needle s : string) : bool :=
  String.prefix needle s ||
  match s with
  | "" => false
  | String _ r => str_contains needle r
  end.

(** [s.replace(c, new)] for a one-character [c]. *)
Fixpoint replace_char (c : ascii) (new : string) (s : string) : string :=
  match s with
  | "" => ""
  | String a r =>
      (if Ascii.eqb a c then new else String a "") +:+ replace_char c new r
  end.

(** [s.split(chr(10))] *)
Fixpoint split_lines_go (cur : string) (s : string) : list string :=
  match s with
  | "" => [String.rev cur]
  | String a r =>
      if Ascii.eqb a "010"%char then String.rev cur :: split_lines_go "" r
      else split_lines_go (String a cur) r
  end.

Definition split_lines (s : string) : list string := split_lines_go "" s.

(** [sep.join(l)] *)
Fixpoint join (sep : string) (l : list string) : string :=
  match l with
  | [] => ""
  | [x] => x
  | x :: r => x +:+ sep +:+ join sep r
  end.

(** [l[1:-1]] *)
Definition slice_1_m1 {A} (l : list A) : list A :=
  take (length l - 2)%nat (drop 1 l).

(** [l[-n:]] for [n > 0]. *)
Definition last_n {A} (n : nat) (l : list A) : list A :=
  drop (length l - n)%nat l.

(** [str(z)] for an int. *)
Definition str_of_int (z : Z) : string := NilZero.string_of_int (Z.to_int z).

(** The digits of an [int(...)] literal after the sign: digits, with single
    underscores allowed between two digits.  Returns the digits alone. *)
Fixpoint int_digits (after_digit : bool) (s : string) : option string :=
  match s with
  | "" => if after_digit then Some "" else None
  | String a r =>
      if is_digit a then String a <$> int_digits true r
      else if Ascii.eqb a "_"%char then
        if after_digit then int_digits false r else None
      else None
  end.

(** [int(s)] for a string: surrounding white space, an optional sign, then the
    digits.  [None] stands for the [ValueError] Python raises. *)
Definition py_int (s : string) : option Z :=
  let t := strip s in
  let '(neg, body) :=
    match t with
    | String "-"%char r => (true, r)
    | String "+"%char r => (false, r)
    | _ => (false, t)
    end in
  ds ← int_digits false body;
  u ← NilEmpty.uint_of_string ds;
  Some (if neg then - Z.of_uint u else Z.of_uint u).

(** [chr(n)] as a one-character string. *)
Definition chr (n : Z) : string := String (ascii_of_N (Z.to_N n)) "".

(** ** Floats *)

(** The float operations the code uses.  [float_of_int] is the implicit
    conversion of an [int] operand in mixed arithmetic; [int_truediv] is
    [a / b] on two ints; [int_of_float] is [int(x)], truncation towards
    zero. *)
Class PyFloat (F : Type) := {
  float_of_int : Z -> result F;
  int_truediv : Z -> Z -> result F;
  lit_0_5 : F;
  lit_0_3 : F;
  lit_0_7 : F;
  fadd : F -> F -> F;
  fsub : F -> F -> F;
  fmul : F -> F -> F;
  fdiv : F -> F -> result F;
  int_of_float : F -> result Z
}.

(** *** IEEE 754 binary64, as in CPython *)

Definition b64_of_int (z : Z) : result float :=
  match binary_normalize prec emax z 0 false with
  | S754_infinity _ => Raise PyOverflowError
  | sf => OK (SF2Prim sf)
  end.

Definition b64_div (x y : float) : result float :=
  if PrimFloat.eqb y 0%float then Raise PyZeroDivisionError
  else OK (PrimFloat.div x y).

(** Exact for operands below [2^53] in magnitude, where the conversions do
    not round and the IEEE quotient is the correctly rounded one. *)
Definition b64_truediv (a b : Z) : result float :=
  if b =? 0 then Raise PyZeroDivisionError
  else x ← b64_of_int a; y ← b64_of_int b; b64_div x y.

Definition b64_to_int (f : float) : result Z :=
  match Prim2SF f with
  | S754_zero _ => OK 0
  | S754_finite s m e =>
      let a := if 0 <=? e then Z.pos m * 2 ^ e else Z.pos m / 2 ^ (- e) in
      OK (if s then - a else a)
  | S754_infinity _ => Raise PyOverflowError
  | S754_nan => Raise PyValueError
  end.

#[global] Instance binary64 : PyFloat float := {|
  float_of_int := b64_of_int;
  int_truediv := b64_truediv;
  lit_0_5 := 0.5%float;
  lit_0_3 := 0.3%float;
  lit_0_7 := 0.7%float;
  fadd := PrimFloat.add;
  fsub := PrimFloat.sub;
  fmul := PrimFloat.mul;
  fdiv := b64_div;
  int_of_float := b64_to_int
|}.

(** *** Exact rational arithmetic

    Not the arithmetic of the code: no rounding and no overflow. *)

Definition Qtrunc (q : Q) : Z := Z.quot (Qnum q) (Z.pos (Qden q)).

Definition Q_div (x y : Q) : result Q :=
  if Qeq_bool y 0 then Raise PyZeroDivisionError else OK (x / y)%Q.

#[global] Instance exact : PyFloat Q := {|
  float_of_int z := OK (inject_Z z);
  int_truediv a b := Q_div (inject_Z a) (inject_Z b);
  lit_0_5 := (1 # 2)%Q;
  lit_0_3 := (3 # 10)%Q;
  lit_0_7 := (7 # 10)%Q;
  fadd := Qplus;
  fsub := Qminus;
  fmul := Qmult;
  fdiv := Q_div;
  int_of_float q := OK (Qtrunc q)
|}.

(** *** IEEE 754 binary64, as the standard defines it *)

(** The nearest integer, the even one on a tie. *)
Definition Qnearest_even (q : Q) : Z :=
  let f := Qfloor q in
  match (q - inject_Z f ?= 1 # 2)%Q with
  | Lt => f
  | Gt => f + 1
  | Eq => if Z.even f then f else f + 1
  end.

(** The magnitude of a rational that is not zero: the [e] with
    [2 ^ (e - 1) <= |q| < 2 ^ e]. *)
Definition mag (q : Q) : Z :=
  let k := Z.log2 (Z.abs (Qnum q)) - Z.log2 (Z.pos (Qden q)) in
  if Qle_bool (2 ^ k) (Qabs q) then k + 1 else k.

(** The exponent of the last bit of a binary64 number of the magnitude of
    [q]: 53 bits of precision, and no exponent below -1074. *)
Definition cexp (q : Q) : Z := Z.max (mag q - 53) (-1074).

(** Rounding to nearest, ties to even, with an unbounded exponent. *)
Definition rne (q : Q) : Q :=
  (inject_Z (Qnearest_even (q / 2 ^ cexp q)) * 2 ^ cexp q)%Q.

(** A binary64 value: a finite number, an infinity or a NaN.  The sign of a
    zero is left out. *)
Inductive double :=
| Finite (q : Q)
| Infinity (negative : bool)
| NaN.

Definition Qnegative (q : Q) : bool := negb (Qle_bool 0 q).

(** The binary64 result of an operation whose exact result is [q]. *)
Definition round64 (q : Q) : double :=
  let r := rne q in
  if Qle_bool (2 ^ 1024) (Qabs r) then Infinity (Qnegative r) else Finite r.

(** [float(z)] and [a / b] on ints raise [OverflowError] where a float
    operation returns an infinity. *)
Definition finite_or_overflow (d : double) : result double :=
  match d with
  | Finite q => OK (Finite q)
  | _ => Raise PyOverflowError
  end.

Definition d_of_int (z : Z) : result double :=
  finite_or_overflow (round64 (inject_Z z)).

Definition d_truediv (a b : Z) : result double :=
  if b =? 0 then Raise PyZeroDivisionError
  else finite_or_overflow (round64 (inject_Z a / inject_Z b)).

Definition d_opp (x : double) : double :=
  match x with
  | Finite a => Finite (- a)
  | Infinity s => Infinity (negb s)
  | NaN => NaN
  end.

Definition d_add (x y : double) : double :=
  match x, y with
  | Finite a, Finite b => round64 (a + b)
  | NaN, _ | _, NaN => NaN
  | Infinity s, Infinity t => if Bool.eqb s t then Infinity s else NaN
  | Infinity s, Finite _ | Finite _, Infinity s => Infinity s
  end.

Definition d_sub (x y : double) : double := d_add x (d_opp y).

Definition d_mul (x y : double) : double :=
  match x, y with
  | Finite a, Finite b => round64 (a * b)
  | NaN, _ | _, NaN => NaN
  | Infinity s, Infinity t => Infinity (xorb s t)
  | Infinity s, Finite b | Finite b, Infinity s =>
      if Qeq_bool b 0 then NaN else Infinity (xorb s (Qnegative b))
  end.

Definition d_div (x y : double) : result double :=
  match y with
  | Finite b =>
      if Qeq_bool b 0 then Raise PyZeroDivisionError
      else OK match x with
              | Finite a => round64 (a / b)
              | Infinity s => Infinity (xorb s (Qnegative b))
              | NaN => NaN
              end
  | Infinity _ => OK match x with Finite _ => Finite 0 | _ => NaN end
  | NaN => OK NaN
  end.

Definition d_to_int (x : double) : result Z :=
  match x with
  | Finite q => OK (Qtrunc q)
  | Infinity _ => Raise PyOverflowError
  | NaN => Raise PyValueError
  end.

(** A decimal literal is the binary64 number nearest to it. *)
#[global] Instance ieee : PyFloat double := {|
  float_of_int := d_of_int;
  int_truediv := d_truediv;
  lit_0_5 := Finite (1 # 2);
  lit_0_3 := Finite (rne (3 # 10));
  lit_0_7 := Finite (rne (7 # 10));
  fadd := d_add;
  fsub := d_sub;
  fmul := d_mul;
  fdiv := d_div;
  int_of_float := d_to_int
|}.

(** ** settings.py and grid_converter.py *)

(** The grid of a screen: column and row counts, screen size in pixels. *)
Record GridSpec := {
  grid_cols : Z;
  grid_rows : Z;
  screen_width : Z;
  screen_height : Z
}.

(** The entries of the configuration dict a [GridConverter] reads. *)
Record GridConfig (F : Type) := {
  cols : Z;
  rows : Z;
  cell_width : F;
  cell_height : F
}.
Arguments cols {F} _.
Arguments rows {F} _.
Arguments cell_width {F} _.
Arguments cell_height {F} _.

Section GridConverter.
Context {F : Type} {PF : PyFloat F}.

(** [Settings.__init__]: [cell_width = screen_width / grid_cols] and
    [cell_height = screen_height / grid_rows]. *)
Definition grid_config (s : GridSpec) : result (GridConfig F) :=
  cw ← int_truediv (screen_width s) (grid_cols s);
  ch ← int_truediv (screen_height s) (grid_rows s);
  OK {| cols := grid_cols s; rows := grid_rows s;
        cell_width := cw; cell_height := ch |}.

Variable self : GridConfig F.

(** [[chr(65 + i) for i in range(self.cols)]] *)
Definition col_letters : list string :=
  (fun i => chr (65 + i)) <$> seqZ 0 (cols self).

(** [self.col_letters.index(col_letter)] *)
Definition col_index_of (col_letter : string) : result Z :=
  match list_find (fun l => l = col_letter) col_letters with
  | Some (i, _) => OK (Z.of_nat i)
  | None => Raise PyValueError
  end.

(** [int(a * w)] for an int [a] and a float [w]. *)
Definition int_mul (a : Z) (w : F) : result Z :=
  fa ← float_of_int a; int_of_float (fmul fa w).

Definition _single_grid_to_pixel (grid_str : string) : result (Z * Z) :=
  let grid_str := upper (strip grid_str) in
  if (String.length grid_str <? 2)%nat then Raise (InvalidGridFormat grid_str)
  else
    let col_letter := String.substring 0 1 grid_str in
    let row_str := String.substring 1 (String.length grid_str - 1) grid_str in
    if negb (bool_decide (col_letter ∈ col_letters)) then
      (* the message formats [self.col_letters[-1]] *)
      match col_letters with
      | [] => Raise PyIndexError
      | _ => Raise (InvalidColumn col_letter)
      end
    else
      match py_int row_str with
      | None => Raise (RowNotANumber row_str)
      | Some row =>
          if negb ((1 <=? row) && (row <=? rows self))
          then Raise (RowOutOfRange row)
          else
            col_index ← col_index_of col_letter;
            fc ← float_of_int col_index;
            x ← int_of_float (fmul (fadd fc lit_0_5) (cell_width self));
            fr ← float_of_int row;
            y ← int_of_float (fmul (fsub fr lit_0_5) (cell_height self));
            OK (x, y)
      end.

Definition grid_to_pixel (grid_str : string) : result (Z * Z) :=
  _single_grid_to_pixel (upper (strip grid_str)).

(** [int(x / w)] for an int [x] and a float [w]. *)
Definition int_div (x : Z) (w : F) : result Z :=
  fx ← float_of_int x; q ← fdiv fx w; int_of_float q.

Definition pixel_to_grid (x y : Z) : result string :=
  col_index ← int_div x (cell_width self);
  row_index ← int_div y (cell_height self);
  let col_index := Z.max 0 (Z.min col_index (cols self - 1)) in
  let row_index := Z.max 0 (Z.min row_index (rows self - 1)) in
  match col_letters !! Z.to_nat col_index with
  | None => Raise PyIndexError
  | Some col_letter =>
      let row := row_index + 1 in
      OK (col_letter +:+ str_of_int row)
  end.

Definition get_cell_bounds (grid_str : string) : result (Z * Z * Z * Z) :=
  let grid_str := upper (strip grid_str) in
  match grid_str with
  | "" => Raise PyIndexError
  | String a row_str =>
      let col_letter := String a "" in
      match py_int row_str with
      | None => Raise PyValueError
      | Some row =>
          col_index ← col_index_of col_letter;
          left ← int_mul col_index (cell_width self);
          top ← int_mul (row - 1) (cell_height self);
          right ← int_mul (col_index + 1) (cell_width self);
          bottom ← int_mul row (cell_height self);
          OK (left, top, right, bottom)
      end
  end.

(** The canonical string of the label in column [c] (from 0) and row [r]
    (from 1). *)
Definition label (c r : Z) : string := chr (65 + c) +:+ str_of_int r.

End GridConverter.

(** ** claude_client.py *)

Abbreviation dict := (gmap string pyval).

Definition ACTION_TYPES : list string :=
  ["CLICK"; "TYPE"; "SCROLL"; "AWAKE"; "COMPLETE"].

(** [v == s] for a string [s]. *)
Definition py_eq_str (v : pyval) (s : string) : bool :=
  match v with PStr t => bool_decide (t = s) | _ => false end.

(** [v in l] for a list [l] of strings. *)
Definition in_strs (v : pyval) (l : list string) : bool :=
  existsb (py_eq_str v) l.

(** [a == b] on hashable values; [True == 1] and [False == 0]. *)
Definition py_eq (a b : pyval) : bool :=
  match a, b with
  | PNone, PNone => true
  | PBool x, PBool y => bool_decide (x = y)
  | PBool x, PInt z | PInt z, PBool x => Z.b2z x =? z
  | PInt x, PInt y => x =? y
  | PStr x, PStr y => bool_decide (x = y)
  | _, _ => false
  end.

Definition hashable (v : pyval) : bool :=
  match v with PList _ | PDict _ => false | _ => true end.

(** Truth value of an object. *)
Definition truthy (v : pyval) : bool :=
  match v with
  | PNone => false
  | PBool b => b
  | PInt z => negb (z =? 0)
  | PStr s => negb (bool_decide (s = ""))
  | PList l => negb (bool_decide (l = []))
  | PDict d => negb (bool_decide (d = ∅))
  end.

(** The distinct elements of [l], in order of first occurrence. *)
Fixpoint py_set_go (l acc : list pyval) : list pyval :=
  match l with
  | [] => acc
  | x :: r =>
      if existsb (py_eq x) acc then py_set_go r acc
      else py_set_go r (acc ++ [x])%list
  end.

(** [len(set(l))]; [TypeError] on an unhashable element. *)
Definition len_set (l : list pyval) : result nat :=
  if forallb hashable l then OK (length (py_set_go l [])) else Raise PyTypeError.

(** [d.get(k, default)] *)
Definition get (d : dict) (k : string) (default : pyval) : pyval :=
  from_option id default (d !! k).

(** [k in action] *)
Definition has_key (k : string) (action : pyval) : result bool :=
  match action with
  | PDict d => OK (bool_decide (is_Some (d !! k)))
  | PList l => OK (existsb (fun v => py_eq_str v k) l)
  | PStr s => OK (str_contains k s)
  | _ => Raise PyTypeError
  end.

(** [d[k]] *)
Definition getitem (d : dict) (k : string) : result pyval :=
  match d !! k with Some v => OK v | None => Raise PyKeyError end.

(** A block of the request and a block of the response. *)
Inductive content_block :=
| ImageBlock (data : pyval)
| TextBlock (text : string).

Record resp_block := { btype : string; btext : string }.

Definition click_warning (grid : string) : string :=
  "⚠️ **Warning**: Last 2 CLICK actions targeted the same grid position '"
    +:+ grid +:+ "'!" +:+ nl
  +:+ "The UI likely changed after the first click. Analyze the current screenshot carefully."
    +:+ nl
  +:+ "Do NOT repeat the same click unless you're certain it's needed." +:+ nl +:+ nl.

Definition stuck_warning : string :=
  "⚠️ **Warning**: Last 3 actions had same explanation. You might be stuck!" +:+ nl
  +:+ "Consider: Click back button (top-left, grid A1-B3) or try different approach."
    +:+ nl +:+ nl.

Definition previous_step_caption : string :=
  "**Previous step screenshot** (showing the action that was just executed):"
    +:+ nl +:+ nl.

Section ClaudeClient.
(** [repr] of a list or dict, as an f-string formats it. *)
Variable repr_container : pyval -> string.
(** [json.loads]; [None] for [JSONDecodeError]. *)
Variable json_loads : string -> option pyval.

(** [f"{v}"] *)
Definition py_str (v : pyval) : string :=
  match v with
  | PStr s => s
  | PNone => "None"
  | PBool true => "True"
  | PBool false => "False"
  | PInt z => str_of_int z
  | _ => repr_container v
  end.

(** One line of the summary of previous actions. *)
Definition action_line (i : nat) (action : dict) : string :=
  let action_type := get action "action" (PStr "UNKNOWN") in
  let explain := py_str (get action "explain" (PStr "")) in
  let i := str_of_int (Z.of_nat i) in
  if py_eq_str action_type "CLICK" then
    let grid := py_str (get action "grid" (PStr "")) in
    i +:+ ". CLICK " +:+ grid +:+ " - " +:+ explain +:+ nl
  else if py_eq_str action_type "TYPE" then
    let value := py_str (get action "value" (PStr "")) in
    i +:+ ". TYPE " +:+ dquote +:+ value +:+ dquote +:+ " - " +:+ explain +:+ nl
  else if py_eq_str action_type "SCROLL" then
    let value := py_str (get action "value" (PStr "")) in
    i +:+ ". SCROLL " +:+ value +:+ " - " +:+ explain +:+ nl
  else if py_eq_str action_type "AWAKE" then
    let value := py_str (get action "value" (PStr "")) in
    i +:+ ". AWAKE " +:+ value +:+ " - " +:+ explain +:+ nl
  else
    i +:+ ". " +:+ py_str action_type +:+ " - " +:+ explain +:+ nl.

(** [for i, action in enumerate(l, i): message += ...] *)
Fixpoint action_lines (i : nat) (l : list dict) : string :=
  match l with
  | [] => ""
  | action :: r => action_line i action +:+ action_lines (S i) r
  end.

(** The check for repeated clicks on one grid position. *)
Definition repeated_click (history : list dict) : result (option string) :=
  let recent_actions := last_n 2 history in
  if forallb (fun a => py_eq_str (get a "action" PNone) "CLICK") recent_actions then
    let recent_grids := (fun a => get a "grid" (PStr "")) <$> recent_actions in
    n ← len_set recent_grids;
    match recent_grids with
    | g :: _ =>
        if (n =? 1)%nat && truthy g then OK (Some (click_warning (py_str g)))
        else OK None
    | [] => OK None
    end
  else OK None.

(** The check for repeated explanations. *)
Definition repeated_explain (history : list dict) : result (option string) :=
  let recent_explains := (fun h => get h "explain" (PStr "")) <$> last_n 3 history in
  n ← len_set recent_explains;
  if (n =? 1)%nat then OK (Some stuck_warning) else OK None.

(** A [history] that is [None] behaves as the empty list. *)
Definition _build_user_message (task : string) (history : list dict)
  : result string :=
  let message := "**User Goal:** " +:+ task +:+ nl +:+ nl in
  message ←
    match history with
    | [] => OK message
    | _ =>
        let message := message +:+ "**Previous Actions:**" +:+ nl in
        let message := message +:+ action_lines 1 (last_n 5 history) in
        let message := message +:+ nl in
        if (2 <=? length history)%nat then
          w ← repeated_click history;
          let message := message +:+ default "" w in
          if (3 <=? length history)%nat then
            w ← repeated_explain history;
            OK (message +:+ default "" w)
          else OK message
        else OK message
    end;
  OK (message +:+ "**What is the next action?** (Output JSON only)").

(** The [content] array [get_action] sends. *)
Definition request_content (task grid_image_b64 : string) (history : list dict)
  : result (list content_block) :=
  user_message ← _build_user_message task history;
  let content := [] in
  let content :=
    match last history with
    | Some last_action =>
        match last_action !! "marked_screenshot_b64" with
        | Some data => (content ++ [ImageBlock data; TextBlock previous_step_caption])%list
        | None => content
        end
    | None => content
    end in
  let content := (content ++ [ImageBlock (PStr grid_image_b64)])%list in
  OK (content ++ [TextBlock user_message])%list.

(** The checks on a decoded dict. *)
Definition validate_dict (action : dict) : result dict :=
  match action !! "action" with
  | None => Raise MissingActionField
  | Some action_type =>
      if negb (in_strs action_type ACTION_TYPES) then
        Raise (InvalidActionType action_type)
      else if py_eq_str action_type "CLICK" then
        match action !! "grid" with
        | None => Raise ClickRequiresGrid
        | Some _ => OK action
        end
      else if in_strs action_type ["TYPE"; "SCROLL"; "AWAKE"] then
        match action !! "value" with
        | None => Raise (RequiresValue action_type)
        | Some value =>
            if py_eq_str action_type "SCROLL" && negb (in_strs value ["up"; "down"])
            then Raise (InvalidScrollValue value)
            else OK action
        end
      else OK action
  end.

(** The same checks on whatever [json.loads] returned: on a value that is
    not a dict, [in] succeeds on a list or a string and the subscript
    [action["action"]] then raises [TypeError]. *)
Definition validate_action (action : pyval) : result dict :=
  match action with
  | PDict d => validate_dict d
  | _ =>
      present ← has_key "action" action;
      if negb present then Raise MissingActionField else Raise PyTypeError
  end.

(** The text of the first block of type [text]. *)
Definition first_text (content : list resp_block) : option string :=
  (fun p => btext (snd p)) <$> list_find (fun b => btype b = "text") content.

(** The text handed to [json.loads]: stripped, and without the first and
    the last line when it opens with a code fence. *)
Definition json_text (text_content : string) : string :=
  let text_content := strip text_content in
  if startswith "```" text_content
  then join nl (slice_1_m1 (split_lines text_content))
  else text_content.

Definition _parse_response (response : list resp_block) : result dict :=
  match first_text response with
  | None | Some "" => Raise NoTextContent
  | Some text_content =>
      let text_content := json_text text_content in
      match json_loads text_content with
      | None => Raise (InvalidJSON text_content)
      | Some action => validate_action action
      end
  end.

End ClaudeClient.

(** ** agent.py *)

(** How the loop of [run_task] was left: by [break] after a [COMPLETE]
    action, by exhausting [range(1, max_steps + 1)], through
    [except KeyboardInterrupt] or through [except Exception]. *)
Inductive ending :=
| Completed
| MaxStepsReached
| Interrupted
| Failed (e : exn).

(** The entries of the dict [run_task] returns that depend on the loop, and
    how the loop ended. *)
Record run_result := {
  success : bool;
  steps : Z;
  history : list dict;
  ended : ending
}.

(** The fields of a [LightGUIAgent] that the loop reads, and the two entries
    of [AGENT_CONFIG] it defaults to. *)
Record Agent (F : Type) := {
  device_serial : option string;
  yadb_available : bool;
  grid_converter : GridConfig F;
  GRID_CONFIG : GridSpec;
  config_max_steps : Z;
  config_save_debug_images : bool
}.
Arguments device_serial {F} _.
Arguments yadb_available {F} _.
Arguments grid_converter {F} _.
Arguments GRID_CONFIG {F} _.
Arguments config_max_steps {F} _.
Arguments config_save_debug_images {F} _.

Definition screenshot_path : string := "/sdcard/screenshot.png".

(** A computation that calls collaborators and may raise.  [world] is the
    state of everything outside the program: device, file system, decision
    model. *)
Definition M (world : Type) (A : Type) : Type := world -> result A * world.

#[global] Instance M_ret {world} : MRet (M world) := fun A a w => (OK a, w).
#[global] Instance M_bind {world} : MBind (M world) := fun A B f m w =>
  match m w with
  | (OK a, w') => f a w'
  | (Raise e, w') => (Raise e, w')
  end.

Definition lift {world A} (r : result A) : M world A := fun w => (r, w).

(** [try: m except Exception as e: h e] *)
Definition try_except {world A} (m : M world A) (h : exn -> M world A)
  : M world A := fun w =>
  match m w with
  | (OK a, w') => (OK a, w')
  | (Raise e, w') => if is_Exception e then h e w' else (Raise e, w')
  end.

(** The collaborators of the agent, each a function on the world:
    [repr] of a list or dict and [json.loads] (pure);
    [subprocess.run(cmd, ...)];
    the time-stamped local path of [capture_screenshot] and
    [local_path.exists()];
    [GridOverlay.process_screenshot], [mark_action] followed by
    [logger.save_image], and [compress_and_encode];
    [self.client.messages.create(...)] for a [content] array. *)
Record Collaborators (world image : Type) := {
  repr_container : pyval -> string;
  json_loads : string -> option pyval;
  subprocess_run : list string -> M world unit;
  new_local_path : M world string;
  path_exists : string -> M world bool;
  process_screenshot : string -> M world (image * string);
  mark_action : image -> dict -> M world image;
  compress_and_encode : image -> M world string;
  messages_create : list content_block -> M world (list resp_block)
}.
Arguments repr_container {world image} _.
Arguments json_loads {world image} _.
Arguments subprocess_run {world image} _.
Arguments new_local_path {world image} _.
Arguments path_exists {world image} _.
Arguments process_screenshot {world image} _.
Arguments mark_action {world image} _.
Arguments compress_and_encode {world image} _.
Arguments messages_create {world image} _.

Section Agent.
Context {F : Type} {PF : PyFloat F} {world image : Type}.
Variable env : Collaborators world image.
Variable self : Agent F.

Local Abbreviation M := (M world).

Definition _adb_command (args : list string) : M unit :=
  let cmd := ["adb"] in
  let cmd :=
    match device_serial self with
    | Some serial => if bool_decide (serial = "") then cmd
                     else (cmd ++ ["-s"; serial])%list
    | None => cmd
    end in
  subprocess_run env (cmd ++ args)%list.

Definition capture_screenshot : M string :=
  _ ← _adb_command ["shell"; "screencap"; "-p"; screenshot_path];
  local_path ← new_local_path env;
  _ ← _adb_command ["pull"; screenshot_path; local_path];
  present ← path_exists env local_path;
  if present : bool then mret local_path else lift (Raise ScreenshotPullFailed).

Definition _clear_text_field : M unit :=
  try_except
    (_ ← _adb_command ["shell"; "input"; "keycombination"; "113"; "29"];
     _adb_command ["shell"; "input"; "keyevent"; "67"])
    (fun _ => mret ()).

(** A method call on [v] that only a [str] has. *)
Definition as_str (v : pyval) : result string :=
  match v with PStr s => OK s | _ => Raise PyAttributeError end.

(** A value passed as a command-line argument. *)
Definition as_arg (v : pyval) : result string :=
  match v with PStr s => OK s | _ => Raise PyTypeError end.

(** The body of the [try] of [execute_action]. *)
Definition perform (action : dict) (action_type : pyval) : M unit :=
  if py_eq_str action_type "CLICK" then
    grid ← lift (getitem action "grid");
    grid ← lift (as_str grid);
    '(x, y) ← lift (grid_to_pixel (grid_converter self) grid);
    _adb_command ["shell"; "input"; "tap"; str_of_int x; str_of_int y]
  else if py_eq_str action_type "TYPE" then
    value ← lift (getitem action "value");
    let clear_first := get action "clear_first" (PBool false) in
    _ ← (if truthy clear_first then _clear_text_field else mret ());
    value ← lift (as_str value);
    if yadb_available self then
      let processed_text :=
        replace_char "009"%char " " (replace_char "010"%char " " value) in
      _adb_command ["shell"; "app_process";
                    "-Djava.class.path=/data/local/tmp/yadb"; "/data/local/tmp";
                    "com.ysbing.yadb.Main"; "-keyboard";
                    dquote +:+ processed_text +:+ dquote]
    else
      let escaped_value :=
        replace_char "'"%char "\'" (replace_char " "%char "%s" value) in
      _adb_command ["shell"; "input"; "text"; escaped_value]
  else if py_eq_str action_type "SCROLL" then
    direction ← lift (getitem action "value");
    let screen_width := screen_width (GRID_CONFIG self) in
    let screen_height := screen_height (GRID_CONFIG self) in
    let x := screen_width / 2 in
    '(y1, y2) ← lift (
      if py_eq_str direction "down" then
        y1 ← int_mul screen_height lit_0_7;
        y2 ← int_mul screen_height lit_0_3;
        OK (y1, y2)
      else
        y1 ← int_mul screen_height lit_0_3;
        y2 ← int_mul screen_height lit_0_7;
        OK (y1, y2));
    let duration := 300 in
    _adb_command ["shell"; "input"; "swipe"; str_of_int x; str_of_int y1;
                  str_of_int x; str_of_int y2; str_of_int duration]
  else if py_eq_str action_type "AWAKE" then
    package ← lift (getitem action "value");
    package ← lift (as_arg package);
    _ ← _adb_command ["shell"; "am"; "force-stop"; package];
    _adb_command ["shell"; "monkey"; "-p"; package; "-c";
                  "android.intent.category.LAUNCHER"; "1"]
  else mret ().

(** [for attempt in range(max_retries): try: ...; break / except ...],
    entered at [attempt] with [fuel] iterations left. *)
Fixpoint execute_attempts (action : dict) (action_type : pyval)
    (max_retries : Z) (fuel : nat) (attempt : Z) : M unit :=
  match fuel with
  | O => mret ()
  | S fuel =>
      try_except (perform action action_type)
        (fun e =>
           if attempt <? max_retries - 1
           then execute_attempts action action_type max_retries fuel (attempt + 1)
           else lift (Raise e))
  end.

Definition execute_action (action : dict) (retry_on_failure : bool) : M unit :=
  action_type ← lift (getitem action "action");
  let max_retries := if retry_on_failure then 2 else 1 in
  execute_attempts action action_type max_retries (Z.to_nat max_retries) 0.

(** The retry loop of [get_action]; [None] when [range(max_retries)] is
    empty and the function falls off its end. *)
Fixpoint get_action_attempts (content : list content_block)
    (max_retries : Z) (fuel : nat) (attempt : Z) : M (option dict) :=
  match fuel with
  | O => mret None
  | S fuel =>
      try_except
        (response ← messages_create env content;
         action ← lift (_parse_response (json_loads env) response);
         mret (Some action))
        (fun e =>
           if attempt <? max_retries - 1
           then get_action_attempts content max_retries fuel (attempt + 1)
           else lift (Raise (ApiCallFailed max_retries e)))
  end.

Definition get_action (task grid_image_b64 : string) (history : list dict)
    (max_retries : Z) : M (option dict) :=
  content ← lift (request_content (repr_container env) task grid_image_b64 history);
  get_action_attempts content max_retries (Z.to_nat max_retries) 0.

(** What [_print_step_summary] computes before printing. *)
Definition _print_step_summary (action : dict) : result unit :=
  action_type ← getitem action "action";
  if py_eq_str action_type "CLICK" then
    grid ← as_str (get action "grid" (PStr ""));
    _ ← grid_to_pixel (grid_converter self) grid;
    OK ()
  else OK ().

(** One iteration of the loop, up to the [append]: [action["action"]] and the
    entry recorded in the history. *)
Definition run_step (task : string) (save_screenshots : bool)
    (history : list dict) : M (pyval * dict) :=
  screenshot_path ← capture_screenshot;
  '(annotated_image, grid_image_b64) ← process_screenshot env screenshot_path;
  action ← get_action task grid_image_b64 history 3;
  action ← lift (match action with Some a => OK a | None => Raise PyTypeError end);
  _ ← execute_action action true;
  action_type ← lift (getitem action "action");
  marked_image_b64 ←
    (if save_screenshots && in_strs action_type ["CLICK"; "TYPE"; "AWAKE"] then
       marked_image ← mark_action env annotated_image action;
       b64 ← compress_and_encode env marked_image;
       mret (Some b64)
     else mret None);
  _ ← lift (_print_step_summary action);
  let history_entry :=
    match marked_image_b64 with
    | Some b64 =>
        if bool_decide (b64 = "") then action
        else <["marked_screenshot_b64" := PStr b64]> action
    | None => action
    end in
  mret (action_type, history_entry).

(** [for step in range(step, max_steps + 1)] with [fuel] iterations left;
    returns how the loop ended, [self.step_count] and [self.history]. *)
Fixpoint run_loop (task : string) (save_screenshots : bool) (fuel : nat)
    (step step_count : Z) (history : list dict) (w : world)
    : (ending * Z * list dict) * world :=
  match fuel with
  | O => ((MaxStepsReached, step_count, history), w)
  | S fuel =>
      let step_count := step in
      match run_step task save_screenshots history w with
      | (OK (action_type, history_entry), w') =>
          let history := (history ++ [history_entry])%list in
          if py_eq_str action_type "COMPLETE"
          then ((Completed, step_count, history), w')
          else run_loop task save_screenshots fuel (step + 1) step_count history w'
      | (Raise e, w') =>
          ((if is_Exception e then Failed e else Interrupted, step_count, history), w')
      end
  end.

(** [len(self.history) > 0 and self.history[-1]["action"] == "COMPLETE"] *)
Definition is_success (history : list dict) : result bool :=
  match last history with
  | None => OK false
  | Some entry => a ← getitem entry "action"; OK (py_eq_str a "COMPLETE")
  end.

(** [max_steps or AGENT_CONFIG["max_steps"]] *)
Definition max_steps_or_default (max_steps : option Z) : Z :=
  match max_steps with
  | Some n => if n =? 0 then config_max_steps self else n
  | None => config_max_steps self
  end.

Definition run_task (task : string) (max_steps : option Z)
    (save_screenshots : option bool) : M run_result :=
  let max_steps := max_steps_or_default max_steps in
  let save_screenshots :=
    default (config_save_debug_images self) save_screenshots in
  fun w =>
    let '((e, step_count, history), w') :=
      run_loop task save_screenshots (Z.to_nat max_steps) 1 0 [] w in
    ((ok ← is_success history;
      OK {| success := ok; steps := step_count; history := history; ended := e |}),
     w').

End Agent.

(** ** grid_overlay.py *)

(** [range(start, stop, step)] *)
Definition py_range (start stop step : Z) : result (list Z) :=
  if step =? 0 then Raise PyValueError
  else if 0 <? step then
    OK ((fun k => start + k * step) <$> seqZ 0 ((stop - start + step - 1) / step))
  else
    OK ((fun k => start + k * step) <$> seqZ 0 ((start - stop - step - 1) / (- step))).

(** [l[i]]; a negative [i] counts from the end. *)
Definition py_index {A} (l : list A) (i : Z) : result A :=
  let i := if i <? 0 then i + Z.of_nat (length l) else i in
  if i <? 0 then Raise PyIndexError
  else match l !! Z.to_nat i with
       | Some a => OK a
       | None => Raise PyIndexError
       end.

(** [enumerate(l)] *)
Definition enumerate {A} (l : list A) : list (Z * A) :=
  zip (seqZ 0 (Z.of_nat (length l))) l.

(** The entries of the configuration dict a [GridOverlay] reads for the
    geometry of the overlay: the grid, the screen size and the labels.  The
    column letters of an overlay are those of its grid. *)
Record GridOverlay (F : Type) := {
  overlay_grid : GridConfig F;
  overlay_screen_width : Z;
  overlay_screen_height : Z;
  label_size : Z;
  show_inner_labels : bool;
  inner_label_interval : Z;
  inner_label_opacity : Z
}.
Arguments overlay_grid {F} _.
Arguments overlay_screen_width {F} _.
Arguments overlay_screen_height {F} _.
Arguments label_size {F} _.
Arguments show_inner_labels {F} _.
Arguments inner_label_interval {F} _.
Arguments inner_label_opacity {F} _.

(** The calls on the drawing context of the image: [draw.line] from one
    point to another and [self._draw_label(draw, text, x, y, opacity)].
    Colours, widths and the font are left out. *)
Inductive draw_call :=
| DrawLine (x1 y1 x2 y2 : Z)
| DrawLabel (text : string) (x y : Z) (opacity : option Z).

Section GridOverlay.
Context {F : Type} {PF : PyFloat F}.
Variable self : GridOverlay F.

(** [int((i + 0.5) * w)] for an int [i] and a float [w]. *)
Definition int_center (i : Z) (w : F) : result Z :=
  fi ← float_of_int i; int_of_float (fmul (fadd fi lit_0_5) w).

(** The [x] of the vertical lines of [apply] and the [y] of its horizontal
    lines. *)
Definition vertical_lines : result (list Z) :=
  mapM (fun i => int_mul i (cell_width (overlay_grid self)))
       (seqZ 0 (cols (overlay_grid self) + 1)).

Definition horizontal_lines : result (list Z) :=
  mapM (fun i => int_mul i (cell_height (overlay_grid self)))
       (seqZ 0 (rows (overlay_grid self) + 1)).

(** The labels of the columns, at the top and at the bottom of the image. *)
Definition column_labels : result (list draw_call) :=
  let label_y_top := 10 in
  let label_y_bottom := overlay_screen_height self - label_size self - 10 in
  calls ← mapM (fun '(i, letter) =>
                  x ← int_center i (cell_width (overlay_grid self));
                  OK [DrawLabel letter x label_y_top None;
                      DrawLabel letter x label_y_bottom None])
               (enumerate (col_letters (overlay_grid self)));
  OK (concat calls).

(** The labels of the rows, at the left and at the right of the image. *)
Definition row_labels : result (list draw_call) :=
  let label_x_left := 10 in
  let label_x_right := overlay_screen_width self - label_size self - 10 in
  calls ← mapM (fun i =>
                  let row_num := str_of_int (i + 1) in
                  y ← int_center i (cell_height (overlay_grid self));
                  OK [DrawLabel row_num label_x_left y None;
                      DrawLabel row_num label_x_right y None])
               (seqZ 0 (rows (overlay_grid self)));
  OK (concat calls).

Definition _draw_inner_labels : result (list draw_call) :=
  let interval := inner_label_interval self in
  let opacity := inner_label_opacity self in
  col_idxs ← py_range (interval - 1) (cols (overlay_grid self)) interval;
  calls ← mapM (fun col_idx =>
    row_idxs ← py_range (interval - 1) (rows (overlay_grid self)) interval;
    mapM (fun row_idx =>
            x ← int_center col_idx (cell_width (overlay_grid self));
            y ← int_center row_idx (cell_height (overlay_grid self));
            col_letter ← py_index (col_letters (overlay_grid self)) col_idx;
            let row_num := str_of_int (row_idx + 1) in
            let label_text := col_letter +:+ row_num in
            OK (DrawLabel label_text x y (Some opacity)))
         row_idxs) col_idxs;
  OK (concat calls).

(** The calls [apply] makes on the drawing context, in their order: the
    vertical lines, the horizontal lines, the labels of the columns, the
    labels of the rows, the inner labels. *)
Definition apply_grid : result (list draw_call) :=
  xs ← vertical_lines;
  ys ← horizontal_lines;
  cl ← column_labels;
  rl ← row_labels;
  il ← (if show_inner_labels self then _draw_inner_labels else OK []);
  OK (((fun x => DrawLine x 0 x (overlay_screen_height self)) <$> xs)
      ++ ((fun y => DrawLine 0 y (overlay_screen_width self) y) <$> ys)
      ++ cl ++ rl ++ il)%list.

End GridOverlay.

(** ** settings.py: the density of the grid *)

(** [round(x)] of a float: the nearest int, the even one on a tie. *)
Class PyRound (F : Type) := { py_round : F -> result Z }.

(** The nearest integer to [m / d], for [m >= 0] and [d > 0]. *)
Definition round_half_even (m d : Z) : Z :=
  let q := m / d in
  let r := m mod d in
  if 2 * r <? d then q
  else if d <? 2 * r then q + 1
  else if Z.even q then q else q + 1.

Definition b64_round (f : float) : result Z :=
  match Prim2SF f with
  | S754_zero _ => OK 0
  | S754_finite s m e =>
      let a := if 0 <=? e then Z.pos m * 2 ^ e
               else round_half_even (Z.pos m) (2 ^ (- e)) in
      OK (if s then - a else a)
  | S754_infinity _ => Raise PyOverflowError
  | S754_nan => Raise PyValueError
  end.

#[global] Instance binary64_round : PyRound float := {| py_round := b64_round |}.



Section Settings.
Context {F : Type} {PF : PyFloat F} {PR : PyRound F}.

Definition _calculate_grid (screen_width screen_height : Z) : result (Z * Z) :=
  w ← int_truediv screen_width 108;
  cols ← py_round w;
  h ← int_truediv screen_height 120;
  rows ← py_round h;
  let cols := Z.max 8 (Z.min cols 20) in
  let rows := Z.max 15 (Z.min rows 35) in
  OK (cols, rows).


End Settings.

(** ** Concrete grids *)

(** The grid of the test suite: 10 x 20 cells on a 1080 x 2400 screen. *)
Definition spec_1080x2400 : GridSpec :=
  {| grid_cols := 10; grid_rows := 20; screen_width := 1080; screen_height := 2400 |}.

Definition cfg_108x120 : GridConfig float :=
  {| cols := 10; rows := 20; cell_width := 108%float; cell_height := 120%float |}.

(** A 1080 x 1920 screen with 10 columns and 11 rows, which [config.yaml]
    may ask for. *)
Definition spec_1080x1920 : GridSpec :=
  {| grid_cols := 10; grid_rows := 11; screen_width := 1080; screen_height := 1920 |}.

(** A screen 12 pixels wide with 10 columns: cells 1.2 pixels wide. *)
Definition spec_12x2400 : GridSpec :=
  {| grid_cols := 10; grid_rows := 20; screen_width := 12; screen_height := 2400 |}.

(** 33 columns: the last one is named by [chr(97)], a lower-case a. *)
Definition spec_33_columns : GridSpec :=
  {| grid_cols := 33; grid_rows := 20; screen_width := 3300; screen_height := 2400 |}.

(** One column of [2^52 + 3] rows, each one pixel high. *)
Definition spec_2_52_rows : GridSpec :=
  {| grid_cols := 1; grid_rows := 2 ^ 52 + 3;
     screen_width := 1; screen_height := 2 ^ 52 + 3 |}.

(** A screen [2^1024] pixels wide. *)
Definition spec_2_1024_wide : GridSpec :=
  {| grid_cols := 1; grid_rows := 1; screen_width := 2 ^ 1024; screen_height := 1 |}.


(** 18 rows on a screen 2400 pixels high: cells 133.33... pixels high. *)
Definition spec_10x18 : GridSpec :=
  {| grid_cols := 10; grid_rows := 18; screen_width := 1080; screen_height := 2400 |}.

(** 14 rows on a screen 2400 pixels high. *)
Definition spec_10x14 : GridSpec :=
  {| grid_cols := 10; grid_rows := 14; screen_width := 1080; screen_height := 2400 |}.

(** Every pair of a column index and a row number of a grid. *)
Definition all_labels (s : GridSpec) : list (Z * Z) :=
  c ← seqZ 0 (grid_cols s); r ← seqZ 1 (grid_rows s); [(c, r)].

(** [toLabel(toPixel(label))] *)
Definition round_trip {F} {PF : PyFloat F} (cfg : GridConfig F) (l : string)
  : result string :=
  '(x, y) ← grid_to_pixel cfg l; pixel_to_grid cfg x y.

(** A converter built from the grid [s], as [GridConverter()] builds it from
    the settings, handed to [f]. *)
Definition on_grid {F} {PF : PyFloat F} {A} (s : GridSpec)
    (f : GridConfig F -> result A) : result A :=
  cfg ← grid_config s; f cfg.

(** [r] is the pair [p], as a boolean. *)
Definition returns_pair (r : result (Z * Z)) (p : Z * Z) : bool :=
  match r with
  | OK (x, y) => (x =? p.1) && (y =? p.2)
  | Raise _ => false
  end.

(** Both are the same pair, or the same string, as a boolean. *)
Definition same_pair (a b : result (Z * Z)) : bool :=
  match a with OK p => returns_pair b p | Raise _ => false end.

Definition same_bounds (a b : result (Z * Z * Z * Z)) : bool :=
  match a, b with
  | OK (l, t, r, u), OK (l', t', r', u') =>
      (l =? l') && (t =? t') && (r =? r') && (u =? u')
  | _, _ => false
  end.

(** [r] is the string [s], as a boolean. *)
Definition returns_str (r : result string) (s : string) : bool :=
  match r with
  | OK t => bool_decide (t = s)
  | Raise _ => false
  end.

Definition same_str (a b : result string) : bool :=
  match a with OK t => returns_str b t | Raise _ => false end.

(** ** Auxiliary notions for the statements *)

(** Every character of [s] satisfies [p]. *)
Fixpoint all_chars (p : ascii -> bool) (s : string) : bool :=
  match s with
  | "" => true
  | String a r => p a && all_chars p r
  end.

Definition not_space (a : ascii) : bool := negb (is_space a).

Definition not_lower (a : ascii) : bool := bool_decide (upper_ascii a = a).

(** The character of column [c]. *)
Definition letter (c : Z) : ascii := ascii_of_N (Z.to_N (65 + c)).

(** [max(0, min(v, m))] *)
Definition clamp (v m : Z) : Z := Z.max 0 (Z.min v m).

(** The configuration [grid_config] computes in exact arithmetic. *)
Definition exact_config (s : GridSpec) : GridConfig Q :=
  {| cols := grid_cols s; rows := grid_rows s;
     cell_width := (inject_Z (screen_width s) / inject_Z (grid_cols s))%Q;
     cell_height := (inject_Z (screen_height s) / inject_Z (grid_rows s))%Q |}.

(** The size of a cell in binary64: [size / count], rounded. *)
Definition cell_size (size count : Z) : Q := rne (inject_Z size / inject_Z count).

(** The configuration [grid_config] computes in binary64. *)
Definition ieee_config (s : GridSpec) : GridConfig double :=
  {| cols := grid_cols s; rows := grid_rows s;
     cell_width := Finite (cell_size (screen_width s) (grid_cols s));
     cell_height := Finite (cell_size (screen_height s) (grid_rows s)) |}.

(** Cells of at least two pixels, or of integral size. *)
Definition cell_fits (size count : Z) : Prop := 2 * count <= size \/ (count | size).

(** The string is empty or starts with a character that is not white
    space. *)
Definition first_not_space (s : string) : bool :=
  match s with "" => true | String a _ => negb (is_space a) end.

Definition not_newline (a : ascii) : bool := negb (Ascii.eqb a "010"%char).


(** The marker of a code block. *)
Definition fence : string := "```".





(** An entry that passes the checks of [_parse_response] and whose label,
    when it is a CLICK, is one that [grid_to_pixel] accepts. *)
Definition well_formed_entry {F} {PF : PyFloat F} (cfg : GridConfig F)
    (entry : dict) : Prop :=
  validate_dict entry = OK entry /\
  (entry !! "action" = Some (PStr "CLICK") ->
   exists g x y, entry !! "grid" = Some (PStr g) /\ grid_to_pixel cfg g = OK (x, y)).

(** The call draws a label at the point where a tap on that label lands. *)
Definition label_at_tap_point {F} {PF : PyFloat F} (cfg : GridConfig F)
    (call : draw_call) : bool :=
  match call with
  | DrawLabel text x y _ => returns_pair (grid_to_pixel cfg text) (x, y)
  | DrawLine _ _ _ _ => false
  end.

(** ** Sample values *)

Definition scroll_left : dict :=
  <["action" := PStr "SCROLL"]> (<["value" := PStr "left"]> ∅).

Definition click_empty_grid : dict :=
  <["action" := PStr "CLICK"]> (<["grid" := PStr ""]> ∅).

Definition click_E5 : dict :=
  <["action" := PStr "CLICK"]> (<["grid" := PStr "E5"]>
    (<["explain" := PStr "open the search box"]> ∅)).

Definition complete_action : dict := <["action" := PStr "COMPLETE"]> ∅.

(** A response made of a single text block. *)
Definition text_response (text : string) : list resp_block :=
  [{| btype := "text"; btext := text |}].

(** A world without state in which every collaborator succeeds and
    [json.loads] decodes every text to [loaded]. *)
Definition env_const (loaded : pyval) : Collaborators unit unit := {|
  repr_container := fun _ => "";
  json_loads := fun _ => Some loaded;
  subprocess_run := fun _ => mret tt;
  new_local_path := mret "screenshot.png";
  path_exists := fun _ => mret true;
  process_screenshot := fun _ => mret (tt, "IMG");
  mark_action := fun _ _ => mret tt;
  compress_and_encode := fun _ => mret "MARK";
  messages_create := fun _ => mret (text_response "{}")
|}.

(** An agent on the 10 x 20 grid, in exact arithmetic. *)
Definition agent_1080x2400 : Agent Q := {|
  device_serial := None;
  yadb_available := false;
  grid_converter := exact_config spec_1080x2400;
  GRID_CONFIG := spec_1080x2400;
  config_max_steps := 20;
  config_save_debug_images := true
|}.



(** A CLICK whose explanation is a list. *)
Definition click_list_explain : dict :=
  <["action" := PStr "CLICK"]> (<["grid" := PStr "E5"]>
    (<["explain" := PList [PStr "open"; PStr "the search box"]]> ∅)).

(** The overlay of the 10 x 20 grid with the default style, in binary64 and
    in exact arithmetic. *)
Definition overlay_1080x2400 : GridOverlay float := {|
  overlay_grid := cfg_108x120;
  overlay_screen_width := 1080;
  overlay_screen_height := 2400;
  label_size := 32;
  show_inner_labels := true;
  inner_label_interval := 3;
  inner_label_opacity := 128
|}.


(** ** Notions for the statements about requests and runs *)

(** [needle] occurs in [hay]. *)
Definition contains (needle hay : string) : Prop :=
  exists pre post, hay = pre +:+ needle +:+ post.

(** The fields the stuck detection collects in a set hold no list and no
    object. *)
Definition scalar_fields (e : dict) : Prop :=
  hashable (get e "explain" (PStr "")) = true /\
  hashable (get e "grid" (PStr "")) = true.


Definition marked_key : string := "marked_screenshot_b64".

(** The entry is not a COMPLETE action. *)
Definition not_complete (entry : dict) : Prop :=
  exists t, entry !! "action" = Some t /\ py_eq_str t "COMPLETE" = false.

(** The entry is a COMPLETE action. *)
Definition is_complete (entry : dict) : Prop :=
  entry !! "action" = Some (PStr "COMPLETE").

(** * Properties *)

(** ** Strings: stripping, case and decimal numbers *)

Lemma str_app_assoc (a b c : string) : (a +:+ b) +:+ c = a +:+ (b +:+ c).
Proof. induction a as [|x a IH]; simpl; [reflexivity|]. unfold String.app in *; simpl. by rewrite IH. Qed.

Lemma str_app_nil_r (a : string) : a +:+ "" = a.
Proof. induction a as [|x a IH]; [reflexivity|]. unfold String.app in *; simpl. by rewrite IH. Qed.

Lemma rev_app_rev_app (s1 s2 s3 : string) :
  String.rev_app (String.rev_app s1 s2) s3 = String.rev_app s2 (s1 +:+ s3).
Proof.
  revert s2. induction s1 as [|a s1 IH]; intros s2; simpl; [reflexivity|].
  rewrite IH. reflexivity.
Qed.

Lemma rev_involutive (s : string) : String.rev (String.rev s) = s.
Proof. unfold String.rev. rewrite rev_app_rev_app. simpl. apply str_app_nil_r. Qed.

Lemma all_chars_rev_app p s1 s2 :
  all_chars p s1 = true -> all_chars p s2 = true ->
  all_chars p (String.rev_app s1 s2) = true.
Proof.
  revert s2. induction s1 as [|a s1 IH]; intros s2; simpl; [auto|].
  intros [Ha H1]%andb_true_iff H2. apply IH; [done|]. simpl. by rewrite Ha.
Qed.

Lemma lstrip_no_space s : all_chars not_space s = true -> lstrip s = s.
Proof.
  destruct s as [|a s]; simpl; [done|].
  unfold not_space. intros [Ha _]%andb_true_iff. by destruct (is_space a).
Qed.

Lemma strip_no_space s : all_chars not_space s = true -> strip s = s.
Proof.
  intros H. unfold strip, rstrip. rewrite (lstrip_no_space s H).
  rewrite lstrip_no_space; [apply rev_involutive|].
  by apply all_chars_rev_app.
Qed.

Lemma upper_not_lower s : all_chars not_lower s = true -> upper s = s.
Proof.
  induction s as [|a s IH]; simpl; [done|].
  intros [Ha Hs]%andb_true_iff. apply bool_decide_eq_true in Ha.
  by rewrite Ha, IH.
Qed.

Lemma all_chars_impl (p q : ascii -> bool) s :
  (forall a, p a = true -> q a = true) -> all_chars p s = true -> all_chars q s = true.
Proof.
  intros Hpq. induction s as [|a s IH]; simpl; [done|].
  intros [Ha Hs]%andb_true_iff. by rewrite (Hpq _ Ha), IH.
Qed.

Lemma is_digit_not_space a : is_digit a = true -> not_space a = true.
Proof. revert a. intros [[] [] [] [] [] [] [] []]; vm_compute; congruence. Qed.

Lemma is_digit_not_lower a : is_digit a = true -> not_lower a = true.
Proof. revert a. intros [[] [] [] [] [] [] [] []]; vm_compute; congruence. Qed.

Lemma string_of_uint_digits d : all_chars is_digit (NilEmpty.string_of_uint d) = true.
Proof. induction d; simpl; auto. Qed.

Lemma int_digits_all_digits s b :
  all_chars is_digit s = true -> s <> "" -> int_digits b s = Some s.
Proof.
  revert b. induction s as [|a s IH]; intros b; simpl; [done|].
  intros [Ha Hs]%andb_true_iff _. rewrite Ha.
  destruct s as [|a' s']; [reflexivity|].
  rewrite IH; [reflexivity|done|done].
Qed.

Lemma str_of_int_pos p : str_of_int (Z.pos p) = NilEmpty.string_of_uint (Pos.to_uint p).
Proof.
  unfold str_of_int. simpl. unfold NilZero.string_of_uint.
  pose proof (Unsigned.to_uint_nonnil p). by destruct (Pos.to_uint p).
Qed.

Lemma string_of_uint_nonempty d : d <> Decimal.Nil -> NilEmpty.string_of_uint d <> "".
Proof. by destruct d. Qed.

Lemma str_of_int_digits r : 0 < r -> all_chars is_digit (str_of_int r) = true /\ str_of_int r <> "".
Proof.
  destruct r as [|p|p]; try lia. intros _. rewrite str_of_int_pos. split.
  - apply string_of_uint_digits.
  - apply string_of_uint_nonempty, Unsigned.to_uint_nonnil.
Qed.

Lemma py_int_str_of_int r : 0 < r -> py_int (str_of_int r) = Some r.
Proof.
  intros Hr. destruct (str_of_int_digits r Hr) as [Hd Hne].
  unfold py_int. rewrite strip_no_space by (eapply all_chars_impl; [apply is_digit_not_space|done]).
  assert (Hsign : match str_of_int r with
                  | String "-"%char r0 => (true, r0)
                  | String "+"%char r0 => (false, r0)
                  | _ => (false, str_of_int r) end = (false, str_of_int r)).
  { destruct (str_of_int r) as [|a s]; [done|]. simpl in Hd.
    apply andb_true_iff in Hd as [Ha _]. revert Ha.
    destruct a as [[] [] [] [] [] [] [] []]; vm_compute; congruence. }
  rewrite Hsign. rewrite int_digits_all_digits by done. simpl.
  destruct r as [|p|p]; try lia. rewrite str_of_int_pos.
  rewrite NilEmpty.usu. simpl. unfold Z.of_uint. by rewrite Unsigned.of_to.
Qed.

(** ** Labels *)

Lemma chr_letter c : chr (65 + c) = String (letter c) "".
Proof. reflexivity. Qed.

Lemma label_cons c r : label c r = String (letter c) (str_of_int r).
Proof. reflexivity. Qed.

Lemma letter_inj c d : 0 <= c < 32 -> 0 <= d < 32 -> letter c = letter d -> c = d.
Proof.
  intros Hc Hd H. unfold letter in H.
  apply (f_equal N_of_ascii) in H.
  rewrite !N_ascii_embedding in H by lia. lia.
Qed.

Lemma letter_plain c : 0 <= c < 32 ->
  not_space (letter c) = true /\ not_lower (letter c) = true.
Proof.
  intros Hc.
  assert (Hall : forallb (fun d => not_space (letter d) && not_lower (letter d))
                         (seqZ 0 32) = true) by (vm_compute; reflexivity).
  rewrite forallb_forall in Hall.
  apply andb_true_iff, Hall, list_elem_of_In, elem_of_seqZ. lia.
Qed.

Lemma label_canonical c r : 0 <= c < 32 -> 0 < r ->
  upper (strip (label c r)) = label c r.
Proof.
  intros Hc Hr. destruct (letter_plain c Hc) as [Hs Hl].
  destruct (str_of_int_digits r Hr) as [Hd _].
  rewrite strip_no_space, upper_not_lower; try done; rewrite label_cons; simpl.
  - rewrite Hl. simpl. eapply all_chars_impl; [apply is_digit_not_lower|done].
  - rewrite Hs. simpl. eapply all_chars_impl; [apply is_digit_not_space|done].
Qed.

Lemma substring_all s : String.substring 0 (String.length s) s = s.
Proof. induction s; simpl; [done|by rewrite IHs]. Qed.

Section ColLetters.
Context {F : Type} (cfg : GridConfig F).

Lemma col_letters_lookup c : 0 <= c < cols cfg ->
  col_letters cfg !! Z.to_nat c = Some (chr (65 + c)).
Proof.
  intros Hc. unfold col_letters. rewrite list_lookup_fmap.
  rewrite (proj2 (lookup_seqZ 0 (cols cfg) (Z.to_nat c) c)); [done|]. lia.
Qed.

Lemma col_letters_elem c : 0 <= c < cols cfg -> chr (65 + c) ∈ col_letters cfg.
Proof. intros Hc. eapply list_elem_of_lookup_2, col_letters_lookup, Hc. Qed.

Lemma col_index_of_letter c : 0 <= c < cols cfg -> cols cfg <= 32 ->
  col_index_of cfg (chr (65 + c)) = OK c.
Proof.
  intros Hc H26. unfold col_index_of.
  assert (H : list_find (fun l => l = chr (65 + c)) (col_letters cfg)
              = Some (Z.to_nat c, chr (65 + c))).
  { apply list_find_Some. split; [by apply col_letters_lookup|]. split; [done|].
    intros j y Hj Hlt Hy. subst y. unfold col_letters in Hj.
    rewrite list_lookup_fmap in Hj.
    destruct (seqZ 0 (cols cfg) !! j) as [d|] eqn:Hd; [|done].
    apply lookup_seqZ in Hd as [-> Hjlt]. simpl in Hj.
    unfold chr in Hj. injection Hj as Hj.
    apply (letter_inj (0 + Z.of_nat j) c) in Hj; lia. }
  rewrite H. f_equal. lia.
Qed.
End ColLetters.

Section LabelCalls.
Context {F : Type} {PF : PyFloat F} (cfg : GridConfig F).

(** [grid_to_pixel] on a label of the grid comes down to its arithmetic. *)
Lemma grid_to_pixel_label c r :
  0 <= c < cols cfg -> cols cfg <= 32 -> 1 <= r <= rows cfg ->
  grid_to_pixel cfg (label c r) =
    (fc ← float_of_int c;
     x ← int_of_float (fmul (fadd fc lit_0_5) (cell_width cfg));
     fr ← float_of_int r;
     y ← int_of_float (fmul (fsub fr lit_0_5) (cell_height cfg));
     OK (x, y)).
Proof.
  intros Hc H26 Hr. unfold grid_to_pixel, _single_grid_to_pixel.
  rewrite !label_canonical by lia. rewrite label_cons.
  destruct (str_of_int_digits r ltac:(lia)) as [_ Hne].
  destruct (str_of_int r) as [|a ds] eqn:Hds; [done|].
  cbn [String.length Nat.ltb Nat.leb String.substring Nat.sub].
  rewrite substring_all.
  rewrite <- chr_letter, bool_decide_eq_true_2 by (apply col_letters_elem; lia).
  cbn [negb]. rewrite <- Hds, py_int_str_of_int by lia.
  replace ((1 <=? r) && (r <=? rows cfg)) with true by (symmetry; apply andb_true_iff; lia).
  cbn [negb]. rewrite col_index_of_letter by lia. reflexivity.
Qed.

Lemma get_cell_bounds_label c r :
  0 <= c < cols cfg -> cols cfg <= 32 -> 0 < r ->
  get_cell_bounds cfg (label c r) =
    (left ← int_mul c (cell_width cfg);
     top ← int_mul (r - 1) (cell_height cfg);
     right ← int_mul (c + 1) (cell_width cfg);
     bottom ← int_mul r (cell_height cfg);
     OK (left, top, right, bottom)).
Proof.
  intros Hc H26 Hr. unfold get_cell_bounds.
  rewrite label_canonical by lia. rewrite label_cons.
  rewrite py_int_str_of_int by lia. rewrite <- chr_letter.
  rewrite col_index_of_letter by lia. reflexivity.
Qed.
End LabelCalls.

(** ** Exact arithmetic *)

Section ExactArithmetic.
Local Open Scope Q_scope.


Lemma Qlt_floor_succ q : q < inject_Z (Qfloor q) + 1.
Proof. pose proof (Qlt_floor q) as H. by rewrite inject_Z_plus in H. Qed.

Lemma Qtrunc_nonneg q : 0 <= q -> Qtrunc q = Qfloor q.
Proof.
destruct q as [n d]. unfold Qle, Qtrunc, Qfloor. simpl. intros H.
apply Z.quot_div_nonneg; lia.
Qed.

Lemma Qtrunc_neg q : q < 0 -> (Qtrunc q <= 0)%Z.
Proof.
destruct q as [n d]. unfold Qlt, Qtrunc. simpl. intros H.
apply Z.quot_le_upper_bound; lia.
Qed.

Lemma Qfloor_neg q : q < 0 -> (Qfloor q < 0)%Z.
Proof.
intros H. pose proof (Qfloor_le q) as Hf.
apply Z.lt_nge. intros Hge. rewrite Zle_Qle in Hge. change (inject_Z 0) with 0 in Hge. lra.
Qed.

Lemma clamp_trunc q m : (0 <= m)%Z -> clamp (Qtrunc q) m = clamp (Qfloor q) m.
Proof.
intros Hm. destruct (Qlt_le_dec q 0) as [Hq|Hq].
- pose proof (Qtrunc_neg q Hq). pose proof (Qfloor_neg q Hq). unfold clamp. lia.
- by rewrite Qtrunc_nonneg.
Qed.

Lemma Qfloor_unique q k : inject_Z k <= q -> q < inject_Z (k + 1) -> Qfloor q = k.
Proof.
intros Hlo Hhi.
pose proof (Qfloor_le q) as H1. pose proof (Qlt_floor q) as H2.
assert (Qfloor q < k + 1)%Z by (rewrite Zlt_Qlt; rewrite ?inject_Z_plus in *; simpl (inject_Z 1) in *; lra).
assert (k < Qfloor q + 1)%Z by (rewrite Zlt_Qlt; rewrite ?inject_Z_plus in *; simpl (inject_Z 1) in *; lra).
lia.
Qed.

Lemma Qfloor_div_cell x c w :
0 < w -> inject_Z c * w <= inject_Z x -> inject_Z x < inject_Z (c + 1) * w ->
Qfloor (inject_Z x / w) = c.
Proof.
intros Hw Hlo Hhi. apply Qfloor_unique.
- by apply Qle_shift_div_l.
- by apply Qlt_shift_div_r.
Qed.

Lemma exact_int_mul a w : int_mul (PF := exact) a w = OK (Qtrunc (inject_Z a * w)).
Proof. reflexivity. Qed.

Lemma exact_int_div x w : 0 < w ->
int_div (PF := exact) x w = OK (Qtrunc (inject_Z x / w)).
Proof.
intros Hw. unfold int_div. simpl. unfold Q_div.
destruct (Qeq_bool w 0) eqn:E; [|reflexivity].
apply Qeq_bool_iff in E. lra.
Qed.

(** The edge [int(k * w)] of a cell, for [k >= 0]. *)
Lemma edge_floor k w : (0 <= k)%Z -> 0 < w ->
Qtrunc (inject_Z k * w) = Qfloor (inject_Z k * w).
Proof.
intros Hk Hw. apply Qtrunc_nonneg. apply Qmult_le_0_compat; [|lra].
change 0 with (inject_Z 0). by rewrite <- Zle_Qle.
Qed.

(** A point strictly between the two edges of column [c] lies in it. *)
Lemma strictly_inside_cell x c w :
0 < w ->
(Qfloor (inject_Z c * w) < x)%Z -> (x < Qfloor (inject_Z (c + 1) * w))%Z ->
Qfloor (inject_Z x / w) = c.
Proof.
intros Hw Hlo Hhi. apply Qfloor_div_cell; [done|..].
- pose proof (Qlt_floor (inject_Z c * w)) as H.
  assert (Qfloor (inject_Z c * w) + 1 <= x)%Z as Hx by lia.
  rewrite Zle_Qle in Hx. rewrite inject_Z_plus in H, Hx. lra.
- pose proof (Qfloor_le (inject_Z (c + 1) * w)) as H.
  rewrite Zlt_Qlt in Hhi. lra.
Qed.



End ExactArithmetic.


Lemma returns_pair_true r p : returns_pair r p = true -> r = OK p.
Proof.
  destruct r as [[x y]|e], p as [a b]; simpl; [|discriminate].
  intros [->%Z.eqb_eq ->%Z.eqb_eq]%andb_true_iff. reflexivity.
Qed.

Lemma returns_str_true r s : returns_str r s = true -> r = OK s.
Proof.
  destruct r as [t|e]; simpl; [|discriminate].
  intros ->%bool_decide_eq_true. reflexivity.
Qed.

(** ** Grid to pixel on the 10 x 20 grid *)

Lemma grid_config_1080x2400 :
  grid_config (PF := binary64) spec_1080x2400 = OK cfg_108x120.
Proof. vm_compute. reflexivity. Qed.

Lemma centers_1080x2400_checked :
  forallb (fun '(c, r) =>
             returns_pair (grid_to_pixel (PF := binary64) cfg_108x120 (label c r))
                          (108 * c + 54, 120 * r - 60))
          (all_labels spec_1080x2400) = true.
Proof. vm_compute. reflexivity. Qed.

(** C3: on the grid C=10, R=20, W=1080, H=2400 the cell size is 108 x 120,
    [grid_to_pixel] maps A1, E5 and J20 to (54,60), (486,540) and (1026,2340),
    and every label of the grid to the centre of its cell,
    [(108 * c + 54, 120 * r - 60)] for column index [c] and row [r]; all of
    it in binary64 arithmetic. *)
Theorem grid_to_pixel_centers_1080x2400 :
  grid_config (PF := binary64) spec_1080x2400 = OK cfg_108x120 /\
  grid_to_pixel (PF := binary64) cfg_108x120 "A1" = OK (54, 60) /\
  grid_to_pixel (PF := binary64) cfg_108x120 "E5" = OK (486, 540) /\
  grid_to_pixel (PF := binary64) cfg_108x120 "J20" = OK (1026, 2340) /\
  Forall (fun '(c, r) =>
            grid_to_pixel (PF := binary64) cfg_108x120 (label c r)
            = OK (108 * c + 54, 120 * r - 60))
         (all_labels spec_1080x2400).
Proof.
  split; [exact grid_config_1080x2400|].
  split; [vm_compute; reflexivity|].
  split; [vm_compute; reflexivity|].
  split; [vm_compute; reflexivity|].
  apply Forall_forall. intros [c r] Hin.
  pose proof centers_1080x2400_checked as Hall.
  rewrite forallb_forall in Hall.
  apply list_elem_of_In in Hin. specialize (Hall _ Hin). simpl in Hall.
  exact (returns_pair_true _ _ Hall).
Qed.

(** ** Validation of labels by [get_cell_bounds] *)

(** C2: on the 10 x 20 grid [grid_to_pixel] rejects the labels A21 and A0,
    whose row is outside [1, 20], while [get_cell_bounds] returns a rectangle
    for each of them, below and above the screen. *)
Theorem get_cell_bounds_row_unchecked :
  grid_to_pixel (PF := binary64) cfg_108x120 "A21" = Raise (RowOutOfRange 21) /\
  get_cell_bounds (PF := binary64) cfg_108x120 "A21" = OK (0, 2400, 108, 2520) /\
  grid_to_pixel (PF := binary64) cfg_108x120 "A0" = Raise (RowOutOfRange 0) /\
  get_cell_bounds (PF := binary64) cfg_108x120 "A0" = OK (0, -120, 108, 0).
Proof.
  split; [vm_compute; reflexivity|].
  split; [vm_compute; reflexivity|].
  split; vm_compute; reflexivity.
Qed.

(** ** The last row of a 1080 x 1920 screen with 11 rows *)

(** C8: with 11 rows on a screen 1920 pixels high the cell height is
    1920/11, and in binary64 arithmetic 11 * (1920/11) is just below 1920: the
    bottom edge of the last row is 1919 in every column, so the pixel row
    1919 belongs to no cell.  Exact arithmetic gives 1920. *)
Theorem get_cell_bounds_last_row_1080x1920 :
  on_grid (PF := binary64) spec_1080x1920 (fun cfg => get_cell_bounds cfg "A11")
    = OK (0, 1745, 108, 1919) /\
  on_grid (PF := binary64) spec_1080x1920 (fun cfg => get_cell_bounds cfg "J11")
    = OK (972, 1745, 1080, 1919) /\
  on_grid (PF := exact) spec_1080x1920 (fun cfg => get_cell_bounds cfg "A11")
    = OK (0, 1745, 108, 1920).
Proof.
  split; [vm_compute; reflexivity|].
  split; vm_compute; reflexivity.
Qed.

(** ** Round trip on narrow cells *)

(** C1, as stated, fails: on a grid of 10 columns over 12 pixels the centre of
    B1 is truncated to x = 1, which lies in column A; in binary64, and in
    exact arithmetic as well. *)
Lemma round_trip_fails_12x2400 :
  label 1 1 = "B1" /\
  on_grid (PF := binary64) spec_12x2400 (fun cfg => grid_to_pixel cfg "B1")
    = OK (1, 60) /\
  on_grid (PF := binary64) spec_12x2400 (fun cfg => round_trip cfg "B1") = OK "A1" /\
  on_grid (PF := ieee) spec_12x2400 (fun cfg => round_trip cfg "B1") = OK "A1" /\
  on_grid (PF := exact) spec_12x2400 (fun cfg => round_trip cfg "B1") = OK "A1" /\
  "A1" <> "B1".
Proof.
  split; [vm_compute; reflexivity|].
  split; [vm_compute; reflexivity|].
  split; [vm_compute; reflexivity|].
  split; [vm_compute; reflexivity|].
  split; [vm_compute; reflexivity|].
  discriminate.
Qed.

(** The round trip fails as well on a grid of 33 columns, whose last column
    is named by a lower-case a, which [grid_to_pixel] reads as column A. *)
Lemma round_trip_fails_33_columns :
  label 32 1 = "a1" /\
  on_grid (PF := binary64) spec_33_columns (fun cfg => round_trip cfg (label 32 1))
    = OK "A1" /\
  on_grid (PF := ieee) spec_33_columns (fun cfg => round_trip cfg (label 32 1))
    = OK "A1".
Proof. repeat split; vm_compute; reflexivity. Qed.

(** It fails on row [2^52 + 2] of a grid of that many rows and more:
    [row - 0.5] is not a binary64 number and is rounded to [row]. *)
Lemma round_trip_fails_2_52_rows :
  label 0 (2 ^ 52 + 2) = "A4503599627370498" /\
  on_grid (PF := binary64) spec_2_52_rows (fun cfg => round_trip cfg (label 0 (2 ^ 52 + 2)))
    = OK "A4503599627370499" /\
  on_grid (PF := ieee) spec_2_52_rows (fun cfg => round_trip cfg (label 0 (2 ^ 52 + 2)))
    = OK "A4503599627370499".
Proof. repeat split; vm_compute; reflexivity. Qed.

(** And no converter exists for a screen [2^1024] pixels wide: the cell
    width is too large for a float. *)
Lemma round_trip_fails_2_1024_wide :
  on_grid (PF := binary64) spec_2_1024_wide (fun cfg => round_trip cfg "A1")
    = Raise PyOverflowError /\
  on_grid (PF := ieee) spec_2_1024_wide (fun cfg => round_trip cfg "A1")
    = Raise PyOverflowError.
Proof. split; vm_compute; reflexivity. Qed.

(** ** The converter in exact arithmetic *)

Section ExactConverter.
Variable cfg : GridConfig Q.
Hypothesis Hcols : 1 <= cols cfg.
Hypothesis Hrows : 1 <= rows cfg.
Hypothesis Hw : (0 < cell_width cfg)%Q.
Hypothesis Hh : (0 < cell_height cfg)%Q.

Lemma clamp_range v m : 0 <= m -> 0 <= clamp v m <= m.
Proof. unfold clamp. lia. Qed.

Lemma clamp_id v m : 0 <= v <= m -> clamp v m = v.
Proof. unfold clamp. lia. Qed.

Lemma pixel_to_grid_exact x y :
  pixel_to_grid cfg x y =
    OK (label (clamp (Qfloor (inject_Z x / cell_width cfg)) (cols cfg - 1))
              (clamp (Qfloor (inject_Z y / cell_height cfg)) (rows cfg - 1) + 1)).
Proof.
  unfold pixel_to_grid. rewrite !exact_int_div by done. cbn [mbind result_bind].
  fold (clamp (Qtrunc (inject_Z x / cell_width cfg)) (cols cfg - 1)).
  fold (clamp (Qtrunc (inject_Z y / cell_height cfg)) (rows cfg - 1)).
  rewrite !clamp_trunc by lia.
  rewrite col_letters_lookup; [reflexivity|].
  pose proof (clamp_range (Qfloor (inject_Z x / cell_width cfg)) (cols cfg - 1)). lia.
Qed.

Lemma get_cell_bounds_exact c r :
  0 <= c < cols cfg -> cols cfg <= 26 -> 1 <= r ->
  get_cell_bounds cfg (label c r) =
    OK (Qfloor (inject_Z c * cell_width cfg),
        Qfloor (inject_Z (r - 1) * cell_height cfg),
        Qfloor (inject_Z (c + 1) * cell_width cfg),
        Qfloor (inject_Z r * cell_height cfg)).
Proof.
  intros Hc H26 Hr. rewrite get_cell_bounds_label by lia.
  rewrite !exact_int_mul. cbn [mbind result_bind].
  rewrite !edge_floor by (done || lia). reflexivity.
Qed.


(** A point strictly inside the bounds of a cell is mapped to its label. *)
Lemma pixel_to_grid_inside c r x y :
  0 <= c < cols cfg -> 1 <= r <= rows cfg ->
  Qfloor (inject_Z c * cell_width cfg) < x < Qfloor (inject_Z (c + 1) * cell_width cfg) ->
  Qfloor (inject_Z (r - 1) * cell_height cfg) < y < Qfloor (inject_Z r * cell_height cfg) ->
  pixel_to_grid cfg x y = OK (label c r).
Proof.
  intros Hc Hr [Hx1 Hx2] [Hy1 Hy2]. rewrite pixel_to_grid_exact.
  rewrite (strictly_inside_cell x c) by done.
  rewrite (strictly_inside_cell y (r - 1)); [| done | done |].
  - rewrite !clamp_id by lia. do 2 f_equal. lia.
  - by replace (r - 1 + 1) with r by lia.
Qed.

End ExactConverter.

(** ** The converter of a grid, in exact arithmetic *)



Lemma cell_size_pos a b : 1 <= a -> 1 <= b -> (0 < inject_Z a / inject_Z b)%Q.
Proof.
  intros Ha Hb. apply Qlt_shift_div_l.
  - change 0%Q with (inject_Z 0). rewrite <- Zlt_Qlt. lia.
  - rewrite Qmult_0_l. change 0%Q with (inject_Z 0). rewrite <- Zlt_Qlt. lia.
Qed.

Lemma cell_size_times a b : 1 <= b -> (inject_Z b * (inject_Z a / inject_Z b) == inject_Z a)%Q.
Proof.
  intros Hb. field. intros E. unfold Qeq in E. simpl in E. lia.
Qed.


Lemma floor_left_of_screen x w : (0 < w)%Q -> x < 0 -> Qfloor (inject_Z x / w) < 0.
Proof.
  intros Hw Hx. apply Qfloor_neg. apply Qlt_shift_div_r; [done|].
  rewrite Qmult_0_l. change 0%Q with (inject_Z 0). by rewrite <- Zlt_Qlt.
Qed.

Lemma floor_right_of_screen x a b : 1 <= a -> 1 <= b -> a <= x ->
  b <= Qfloor (inject_Z x / (inject_Z a / inject_Z b)).
Proof.
  intros Ha Hb Hx. rewrite <- (Qfloor_Z b) at 1. apply Qfloor_resp_le.
  apply Qle_shift_div_l; [by apply cell_size_pos|].
  rewrite cell_size_times by done. by rewrite <- Zle_Qle.
Qed.

(** ** Rounding to nearest *)

Section Nearest.
Local Open Scope Q_scope.

Lemma Qnearest_even_comp q1 q2 : q1 == q2 -> Qnearest_even q1 = Qnearest_even q2.
Proof.
  intros H. unfold Qnearest_even. rewrite (Qfloor_comp _ _ H).
  assert (E : (q1 - inject_Z (Qfloor q2) ?= 1 # 2) = (q2 - inject_Z (Qfloor q2) ?= 1 # 2)).
  { apply Qcompare_comp; [by rewrite H|reflexivity]. }
  by rewrite E.
Qed.

Lemma Qnearest_even_cases q :
  (Qnearest_even q = Qfloor q /\ q - inject_Z (Qfloor q) <= 1 # 2) \/
  (Qnearest_even q = (Qfloor q + 1)%Z /\ 1 # 2 <= q - inject_Z (Qfloor q)).
Proof.
  unfold Qnearest_even.
  destruct (Qcompare_spec (q - inject_Z (Qfloor q)) (1 # 2)) as [H|H|H].
  - destruct (Z.even (Qfloor q)); [left|right]; (split; [done|]); rewrite H; lra.
  - left. split; [done|lra].
  - right. split; [done|lra].
Qed.

Lemma Qnearest_even_Z z : Qnearest_even (inject_Z z) = z.
Proof.
  unfold Qnearest_even. rewrite Qfloor_Z.
  destruct (Qcompare_spec (inject_Z z - inject_Z z) (1 # 2)) as [H|H|H]; [lra|done|lra].
Qed.

Lemma Qnearest_even_err q :
  q - (1 # 2) <= inject_Z (Qnearest_even q) <= q + (1 # 2).
Proof.
  pose proof (Qfloor_le q) as H1. pose proof (Qlt_floor_succ q) as H2.
  destruct (Qnearest_even_cases q) as [[-> H]|[-> H]].
  - lra.
  - rewrite inject_Z_plus. change (inject_Z 1) with 1. lra.
Qed.

Lemma Qnearest_even_le q1 q2 : q1 <= q2 -> (Qnearest_even q1 <= Qnearest_even q2)%Z.
Proof.
  intros Hle. pose proof (Qfloor_resp_le _ _ Hle) as Hf.
  destruct (Z.eq_dec (Qfloor q1) (Qfloor q2)) as [E|NE].
  - unfold Qnearest_even. rewrite E.
    destruct (Qcompare_spec (q1 - inject_Z (Qfloor q2)) (1 # 2)) as [H1|H1|H1];
    destruct (Qcompare_spec (q2 - inject_Z (Qfloor q2)) (1 # 2)) as [H2|H2|H2];
      try lra; try lia; destruct (Z.even (Qfloor q2)); lia.
  - destruct (Qnearest_even_cases q1) as [[-> _]|[-> _]];
    destruct (Qnearest_even_cases q2) as [[-> _]|[-> _]]; lia.
Qed.
End Nearest.

(** ** Powers of two *)

Section Pow2.
Local Open Scope Q_scope.

Lemma two_neq_0 : ~ 2 == 0.
Proof. discriminate. Qed.

Lemma pow2_pos e : 0 < 2 ^ e.
Proof. by apply Qpower_0_lt. Qed.

Lemma pow2_add a b : 2 ^ (a + b) == 2 ^ a * 2 ^ b.
Proof. apply Qpower_plus, two_neq_0. Qed.

Lemma pow2_sub a b : 2 ^ (a - b) == 2 ^ a / 2 ^ b.
Proof. apply Qpower_minus, two_neq_0. Qed.

Lemma pow2_le a b : (a <= b)%Z -> 2 ^ a <= 2 ^ b.
Proof. intros H. by apply Qpower_le_compat_l. Qed.

Lemma pow2_lt a b : (a < b)%Z -> 2 ^ a < 2 ^ b.
Proof. intros H. by apply Qpower_lt_compat_l. Qed.

Lemma pow2_lt_inv a b : 2 ^ a < 2 ^ b -> (a < b)%Z.
Proof. intros H. by eapply Qpower_lt_compat_l_inv. Qed.

Lemma pow2_Z a : (0 <= a)%Z -> inject_Z (2 ^ a) == 2 ^ a.
Proof. intros H. by rewrite Zpower_Qpower. Qed.

Lemma pow2_succ a : 2 ^ (a + 1) == 2 * 2 ^ a.
Proof. rewrite pow2_add. change (2 ^ 1) with 2. ring. Qed.

Lemma pow2_pred a : 2 ^ (a - 1) == 2 ^ a / 2.
Proof. rewrite pow2_sub. reflexivity. Qed.

Lemma pow2_mul_inv a : 2 ^ a * 2 ^ (- a) == 1.
Proof. rewrite <- pow2_add, Z.add_opp_diag_r. reflexivity. Qed.

(** Dividing by [2 ^ e] and multiplying back. *)
Lemma pow2_div_mul q e : q / 2 ^ e * 2 ^ e == q.
Proof. pose proof (pow2_pos e). field. lra. Qed.
End Pow2.

(** ** The magnitude *)

Section Mag.
Local Open Scope Q_scope.

Lemma Qabs_num_den q : Qabs q == inject_Z (Z.abs (Qnum q)) / inject_Z (Z.pos (Qden q)).
Proof.
  destruct q as [n d]. unfold Qabs. cbn [Qnum Qden].
  rewrite (Qmake_Qdiv (Z.abs n) d). reflexivity.
Qed.

Lemma log2_bounds n : (0 < n)%Z ->
  2 ^ Z.log2 n <= inject_Z n /\ inject_Z n < 2 ^ (Z.log2 n + 1).
Proof.
  intros Hn. destruct (Z.log2_spec n Hn) as [H1 H2].
  pose proof (Z.log2_nonneg n) as H0. split.
  - rewrite <- pow2_Z by done. by rewrite <- Zle_Qle.
  - rewrite <- pow2_Z by lia. rewrite <- Zlt_Qlt.
    by rewrite <- Z.add_1_r in H2.
Qed.

Lemma mag_spec q : ~ q == 0 -> 2 ^ (mag q - 1) <= Qabs q /\ Qabs q < 2 ^ mag q.
Proof.
  intros Hq.
  assert (Hn : (0 < Z.abs (Qnum q))%Z).
  { destruct q as [n d]. cbn. destruct n; [|lia|lia].
    destruct Hq. reflexivity. }
  assert (Hd : (0 < Z.pos (Qden q))%Z) by lia.
  destruct (log2_bounds _ Hn) as [Hn1 Hn2].
  destruct (log2_bounds _ Hd) as [Hd1 Hd2].
  set (a := Z.log2 (Z.abs (Qnum q))) in *.
  set (b := Z.log2 (Z.pos (Qden q))) in *.
  assert (Hlo : 2 ^ (a - b - 1) < Qabs q).
  { rewrite Qabs_num_den. apply Qlt_shift_div_l.
    - change 0 with (inject_Z 0). by rewrite <- Zlt_Qlt.
    - replace (a - b - 1)%Z with (a - (b + 1))%Z by lia.
      rewrite pow2_sub. pose proof (pow2_pos (b + 1)). pose proof (pow2_pos a).
      apply Qlt_le_trans with (2 ^ a); [|done].
      assert (E : 2 ^ a / 2 ^ (b + 1) * inject_Z (Z.pos (Qden q))
                  == 2 ^ a * (inject_Z (Z.pos (Qden q)) / 2 ^ (b + 1))) by (field; lra).
      rewrite E.
      assert (inject_Z (Z.pos (Qden q)) / 2 ^ (b + 1) < 1).
      { apply Qlt_shift_div_r; [done|]. lra. }
      nra. }
  assert (Hhi : Qabs q < 2 ^ (a - b + 1)).
  { rewrite Qabs_num_den. apply Qlt_shift_div_r.
    - change 0 with (inject_Z 0). by rewrite <- Zlt_Qlt.
    - replace (a - b + 1)%Z with (a + 1 - b)%Z by lia.
      rewrite pow2_sub. pose proof (pow2_pos b). pose proof (pow2_pos (a + 1)).
      apply Qlt_le_trans with (2 ^ (a + 1)); [done|].
      assert (E : 2 ^ (a + 1) / 2 ^ b * inject_Z (Z.pos (Qden q))
                  == 2 ^ (a + 1) * (inject_Z (Z.pos (Qden q)) / 2 ^ b)) by (field; lra).
      rewrite E.
      assert (1 <= inject_Z (Z.pos (Qden q)) / 2 ^ b).
      { apply Qle_shift_div_l; [done|]. lra. }
      nra. }
  unfold mag. fold a b.
  destruct (Qle_bool (2 ^ (a - b)) (Qabs q)) eqn:E.
  - apply Qle_bool_iff in E. replace (a - b + 1 - 1)%Z with (a - b)%Z by lia. done.
  - assert (Qabs q < 2 ^ (a - b)).
    { apply Qnot_le_lt. intros H. apply Qle_bool_iff in H. congruence. }
    split; [by apply Qlt_le_weak|done].
Qed.

Lemma mag_unique q e : 2 ^ (e - 1) <= Qabs q -> Qabs q < 2 ^ e -> mag q = e.
Proof.
  intros H1 H2.
  assert (Hq : ~ q == 0).
  { intros E. rewrite E in H1. pose proof (pow2_pos (e - 1)).
    change (Qabs 0) with 0 in H1. lra. }
  destruct (mag_spec q Hq) as [H3 H4].
  assert (mag q - 1 < e)%Z by (apply pow2_lt_inv; lra).
  assert (e - 1 < mag q)%Z by (apply pow2_lt_inv; lra).
  lia.
Qed.

Lemma mag_le q1 q2 : ~ q1 == 0 -> Qabs q1 <= Qabs q2 -> (mag q1 <= mag q2)%Z.
Proof.
  intros H1 Hle.
  assert (H2 : ~ q2 == 0).
  { intros E. rewrite E in Hle. change (Qabs 0) with 0 in Hle.
    apply H1. apply Qabs_Qle_condition in Hle. lra. }
  destruct (mag_spec q1 H1) as [A1 A2]. destruct (mag_spec q2 H2) as [B1 B2].
  assert (mag q1 - 1 < mag q2)%Z by (apply pow2_lt_inv; lra). lia.
Qed.

Lemma mag_comp q1 q2 : ~ q1 == 0 -> q1 == q2 -> mag q1 = mag q2.
Proof.
  intros H1 E. destruct (mag_spec q1 H1) as [A1 A2].
  symmetry. apply mag_unique; by rewrite <- E.
Qed.
End Mag.

(** ** Rounding to binary64 *)

Ltac zpow n :=
  let v := eval vm_compute in (2 ^ n)%Z in change (2 ^ n)%Z with v in *.

Section Rne.
Local Open Scope Q_scope.

Lemma cexp_ge q : (-1074 <= cexp q)%Z.
Proof. unfold cexp. lia. Qed.

Lemma cexp_mag q : (mag q - 53 <= cexp q)%Z.
Proof. unfold cexp. lia. Qed.

Lemma cexp_comp q1 q2 : ~ q1 == 0 -> q1 == q2 -> cexp q1 = cexp q2.
Proof. intros H E. unfold cexp. by rewrite (mag_comp q1 q2). Qed.

Lemma rne_0 q : q == 0 -> rne q == 0.
Proof.
  intros E. unfold rne.
  assert (H : q / 2 ^ cexp q == inject_Z 0).
  { transitivity (0 / 2 ^ cexp q); [by apply Qmult_comp|]. unfold Qdiv. ring. }
  rewrite (Qnearest_even_comp _ _ H), Qnearest_even_Z. ring.
Qed.

Lemma rne_comp q1 q2 : q1 == q2 -> rne q1 == rne q2.
Proof.
  intros E. destruct (Qeq_dec q1 0) as [H|H].
  - rewrite (rne_0 q1 H), (rne_0 q2) by (by rewrite <- E). reflexivity.
  - unfold rne. rewrite <- (cexp_comp q1 q2 H E).
    assert (H' : q1 / 2 ^ cexp q1 == q2 / 2 ^ cexp q1) by (by apply Qmult_comp).
    by rewrite (Qnearest_even_comp _ _ H').
Qed.

#[global] Instance rne_proper : Proper (Qeq ==> Qeq) rne.
Proof. intros q1 q2 E. by apply rne_comp. Qed.

Lemma rne_err q : Qabs (rne q - q) <= (1 # 2) * 2 ^ cexp q.
Proof.
  apply Qabs_Qle_condition. unfold rne.
  pose proof (Qnearest_even_err (q / 2 ^ cexp q)) as [H1 H2].
  pose proof (pow2_pos (cexp q)) as HP.
  pose proof (pow2_div_mul q (cexp q)) as E.
  set (t := q / 2 ^ cexp q) in *. set (P := 2 ^ cexp q) in *.
  set (n := inject_Z (Qnearest_even t)) in *.
  rewrite <- E. split; nra.
Qed.

(** A multiple of the last bit at or above [q] bounds the rounding of [q],
    and so does one at or below. *)
Lemma rne_le_grid q g k : q <= g -> g == inject_Z k * 2 ^ cexp q -> rne q <= g.
Proof.
  intros Hle Hg. unfold rne. rewrite Hg.
  pose proof (pow2_pos (cexp q)) as HP.
  apply Qmult_le_compat_r; [|lra]. rewrite <- Zle_Qle.
  rewrite <- (Qnearest_even_Z k) at 1. apply Qnearest_even_le.
  apply Qle_shift_div_r; [done|]. by rewrite <- Hg.
Qed.

Lemma rne_ge_grid q g k : g <= q -> g == inject_Z k * 2 ^ cexp q -> g <= rne q.
Proof.
  intros Hle Hg. unfold rne. rewrite Hg.
  pose proof (pow2_pos (cexp q)) as HP.
  apply Qmult_le_compat_r; [|lra]. rewrite <- Zle_Qle.
  rewrite <- (Qnearest_even_Z k) at 1. apply Qnearest_even_le.
  apply Qle_shift_div_l; [done|]. by rewrite <- Hg.
Qed.

Lemma rne_fix q z : q == inject_Z z * 2 ^ cexp q -> rne q == q.
Proof.
  intros H. apply Qle_antisym.
  - by apply (rne_le_grid q q z); [apply Qle_refl|].
  - by apply (rne_ge_grid q q z); [apply Qle_refl|].
Qed.

Lemma Qabs_mult_pow2 m e : Qabs (inject_Z m * 2 ^ e) == inject_Z (Z.abs m) * 2 ^ e.
Proof.
  rewrite Qabs_Qmult. rewrite (Qabs_pos (2 ^ e)) by (apply Qlt_le_weak, pow2_pos).
  apply Qmult_comp; [|reflexivity].
  unfold Qabs, inject_Z. reflexivity.
Qed.

(** A number of at most 53 bits with an exponent of at least -1074 is a
    binary64 number. *)
Lemma rne_repr q m e :
  q == inject_Z m * 2 ^ e -> (Z.abs m < 2 ^ 53)%Z -> (-1074 <= e)%Z -> rne q == q.
Proof.
  intros Hq Hm He. destruct (Qeq_dec q 0) as [H0|H0].
  { by rewrite (rne_0 q H0), H0. }
  destruct (mag_spec q H0) as [H1 _].
  assert (Hlt : Qabs q < 2 ^ (53 + e)).
  { rewrite Hq, Qabs_mult_pow2, pow2_add.
    pose proof (pow2_pos e). apply Qmult_lt_compat_r; [done|].
    rewrite <- pow2_Z by lia. by rewrite <- Zlt_Qlt. }
  assert (Hmag : (mag q - 1 < 53 + e)%Z) by (apply pow2_lt_inv; lra).
  assert (Hc : (cexp q <= e)%Z) by (unfold cexp; lia).
  apply (rne_fix q (m * 2 ^ (e - cexp q))).
  etransitivity; [apply Hq|].
  rewrite inject_Z_mult, pow2_Z by lia.
  rewrite <- Qmult_assoc, <- pow2_add.
  by replace (e - cexp q + cexp q)%Z with e by lia.
Qed.

Lemma rne_Z z : (Z.abs z <= 2 ^ 53)%Z -> rne (inject_Z z) == inject_Z z.
Proof.
  intros H. destruct (Z.eq_dec (Z.abs z) (2 ^ 53)%Z) as [E|NE].
  - zpow 53%Z.
    assert (Hz : z = 9007199254740992%Z \/ z = (-9007199254740992)%Z) by lia.
    destruct Hz as [-> | ->]; [apply (rne_repr _ (2 ^ 52) 1)|apply (rne_repr _ (- 2 ^ 52) 1)];
      first [reflexivity | done].
  - apply (rne_repr _ z 0); [|lia..]. change (2 ^ 0) with 1. ring.
Qed.

(** [z + 1/2] and [z + 3/4] are binary64 numbers for [z] of at most 50
    bits. *)
Lemma rne_half z : (Z.abs z < 2 ^ 52)%Z -> rne (inject_Z z + (1 # 2)) == inject_Z z + (1 # 2).
Proof.
  intros H. apply (rne_repr _ (2 * z + 1) (-1)); [|lia..].
  rewrite inject_Z_plus, inject_Z_mult. change (2 ^ (-1)) with (1 # 2).
  change (inject_Z 2) with 2. change (inject_Z 1) with 1. ring.
Qed.

Lemma rne_three_quarters z : (Z.abs z < 2 ^ 51)%Z ->
  rne (inject_Z z + (3 # 4)) == inject_Z z + (3 # 4).
Proof.
  intros H. apply (rne_repr _ (4 * z + 3) (-2)); [|lia..].
  rewrite inject_Z_plus, inject_Z_mult. change (2 ^ (-2)) with (1 # 4).
  change (inject_Z 4) with 4. change (inject_Z 3) with 3. ring.
Qed.

Lemma rne_pow2 e : (-1074 <= e)%Z -> rne (2 ^ e) == 2 ^ e.
Proof.
  intros H. apply (rne_repr _ 1 e); [|lia..]. change (inject_Z 1) with 1. ring.
Qed.

Lemma rne_nonneg q : 0 <= q -> 0 <= rne q.
Proof.
  intros H. apply (rne_ge_grid q 0 0); [done|]. change (inject_Z 0) with 0. ring.
Qed.

Lemma rne_nonpos q : q <= 0 -> rne q <= 0.
Proof.
  intros H. apply (rne_le_grid q 0 0); [done|]. change (inject_Z 0) with 0. ring.
Qed.

Lemma cexp_le q1 q2 : ~ q1 == 0 -> Qabs q1 <= Qabs q2 -> (cexp q1 <= cexp q2)%Z.
Proof. intros H Hle. pose proof (mag_le q1 q2 H Hle). unfold cexp. lia. Qed.

(** Rounding is monotone. *)
Lemma rne_le_pos q1 q2 : 0 < q1 -> q1 <= q2 -> rne q1 <= rne q2.
Proof.
  intros Hpos Hle.
  assert (H1 : ~ q1 == 0) by lra. assert (H2 : ~ q2 == 0) by lra.
  assert (Ha1 : Qabs q1 == q1) by (apply Qabs_pos; lra).
  assert (Ha2 : Qabs q2 == q2) by (apply Qabs_pos; lra).
  assert (Hc : (cexp q1 <= cexp q2)%Z) by (apply cexp_le; [done|]; lra).
  destruct (Z.eq_dec (cexp q1) (cexp q2)) as [E|NE].
  - unfold rne. rewrite E. pose proof (pow2_pos (cexp q2)).
    apply Qmult_le_compat_r; [|lra]. rewrite <- Zle_Qle.
    apply Qnearest_even_le. apply Qmult_le_compat_r; [done|].
    apply Qlt_le_weak, Qinv_lt_0_compat. done.
  - destruct (mag_spec q1 H1) as [_ A]. destruct (mag_spec q2 H2) as [B _].
    rewrite Ha1 in A. rewrite Ha2 in B.
    assert (Hm2 : cexp q2 = (mag q2 - 53)%Z).
    { pose proof (cexp_ge q1). unfold cexp in *. lia. }
    assert (Hm1 : (mag q1 <= mag q2 - 1)%Z).
    { pose proof (cexp_mag q1). lia. }
    apply Qle_trans with (2 ^ (mag q2 - 1)).
    + apply (rne_le_grid q1 _ (2 ^ (mag q2 - 1 - cexp q1))).
      * apply Qle_trans with (2 ^ mag q1); [lra|]. by apply pow2_le.
      * rewrite pow2_Z by lia. rewrite <- pow2_add.
        by replace (mag q2 - 1 - cexp q1 + cexp q1)%Z with (mag q2 - 1)%Z by lia.
    + apply (rne_ge_grid q2 _ (2 ^ 52)); [done|].
      rewrite pow2_Z by lia. rewrite <- pow2_add.
      by replace (52 + cexp q2)%Z with (mag q2 - 1)%Z by lia.
Qed.

Lemma rne_le_neg q1 q2 : q2 < 0 -> q1 <= q2 -> rne q1 <= rne q2.
Proof.
  intros Hneg Hle.
  assert (H1 : ~ q1 == 0) by lra. assert (H2 : ~ q2 == 0) by lra.
  assert (Ha1 : Qabs q1 == - q1) by (apply Qabs_neg; lra).
  assert (Ha2 : Qabs q2 == - q2) by (apply Qabs_neg; lra).
  assert (Hc : (cexp q2 <= cexp q1)%Z) by (apply cexp_le; [done|]; lra).
  destruct (Z.eq_dec (cexp q1) (cexp q2)) as [E|NE].
  - unfold rne. rewrite E. pose proof (pow2_pos (cexp q2)).
    apply Qmult_le_compat_r; [|lra]. rewrite <- Zle_Qle.
    apply Qnearest_even_le. apply Qmult_le_compat_r; [done|].
    apply Qlt_le_weak, Qinv_lt_0_compat. done.
  - destruct (mag_spec q1 H1) as [B _]. destruct (mag_spec q2 H2) as [_ A].
    rewrite Ha1 in B. rewrite Ha2 in A.
    assert (Hm1 : cexp q1 = (mag q1 - 53)%Z).
    { pose proof (cexp_ge q2). unfold cexp in *. lia. }
    assert (Hm2 : (mag q2 <= mag q1 - 1)%Z).
    { pose proof (cexp_mag q2). lia. }
    apply Qle_trans with (- 2 ^ (mag q1 - 1)).
    + apply (rne_le_grid q1 _ (- 2 ^ 52)); [lra|].
      rewrite inject_Z_opp, pow2_Z by lia.
      assert (E : 2 ^ 52 * 2 ^ cexp q1 == 2 ^ (mag q1 - 1)).
      { rewrite <- pow2_add. by replace (52 + cexp q1)%Z with (mag q1 - 1)%Z by lia. }
      rewrite <- E. ring.
    + apply (rne_ge_grid q2 _ (- 2 ^ (mag q1 - 1 - cexp q2))).
      * assert (2 ^ mag q2 <= 2 ^ (mag q1 - 1)) by (by apply pow2_le). lra.
      * rewrite inject_Z_opp, pow2_Z by lia.
        assert (E : 2 ^ (mag q1 - 1 - cexp q2) * 2 ^ cexp q2 == 2 ^ (mag q1 - 1)).
        { rewrite <- pow2_add.
          by replace (mag q1 - 1 - cexp q2 + cexp q2)%Z with (mag q1 - 1)%Z by lia. }
        rewrite <- E. ring.
Qed.

Lemma rne_le q1 q2 : q1 <= q2 -> rne q1 <= rne q2.
Proof.
  intros Hle. destruct (Qlt_le_dec 0 q1) as [H1|H1].
  - by apply rne_le_pos.
  - destruct (Qlt_le_dec q2 0) as [H2|H2].
    + by apply rne_le_neg.
    + apply Qle_trans with 0; [by apply rne_nonpos|by apply rne_nonneg].
Qed.

(** The relative error of rounding a number in the normal range. *)
Lemma rne_rel_err q : 2 ^ (-1022) <= Qabs q -> Qabs (rne q - q) <= Qabs q * 2 ^ (-53).
Proof.
  intros H.
  assert (H0 : ~ q == 0).
  { intros E. rewrite E in H. change (Qabs 0) with 0 in H.
    pose proof (pow2_pos (-1022)). lra. }
  destruct (mag_spec q H0) as [A B].
  assert (Hm : (-1022 < mag q)%Z) by (apply pow2_lt_inv; lra).
  assert (Hc : cexp q = (mag q - 53)%Z) by (unfold cexp; lia).
  eapply Qle_trans; [apply rne_err|]. rewrite Hc.
  assert (E : (1 # 2) * 2 ^ (mag q - 53) == 2 ^ (mag q - 1) * 2 ^ (-53)).
  { replace (mag q - 53)%Z with (mag q - 1 + (-53) + 1)%Z by lia.
    rewrite pow2_succ, pow2_add. ring. }
  rewrite E. apply Qmult_le_compat_r; [done|]. apply Qlt_le_weak, pow2_pos.
Qed.

(** Rounding a rounded number changes nothing. *)
Lemma Qnearest_even_abs_le t k : Qabs t <= inject_Z k ->
  (Z.abs (Qnearest_even t) <= k)%Z.
Proof.
  intros H. apply Qabs_Qle_condition in H as [H1 H2].
  assert (Qnearest_even t <= k)%Z.
  { rewrite <- (Qnearest_even_Z k). by apply Qnearest_even_le. }
  assert (- k <= Qnearest_even t)%Z.
  { rewrite <- (Qnearest_even_Z (- k)). apply Qnearest_even_le.
    by rewrite inject_Z_opp. }
  lia.
Qed.

Lemma rne_mantissa q : (Z.abs (Qnearest_even (q / 2 ^ cexp q)) <= 2 ^ 53)%Z.
Proof.
  apply Qnearest_even_abs_le. rewrite pow2_Z by lia.
  destruct (Qeq_dec q 0) as [H0|H0].
  { assert (E : q / 2 ^ cexp q == 0).
    { transitivity (0 / 2 ^ cexp q); [by apply Qmult_comp|]. unfold Qdiv. ring. }
    rewrite E. change (Qabs 0) with 0. apply Qlt_le_weak, pow2_pos. }
  destruct (mag_spec q H0) as [_ B]. pose proof (cexp_mag q) as Hc.
  pose proof (pow2_pos (cexp q)) as HP.
  unfold Qdiv. rewrite Qabs_Qmult, Qabs_Qinv, (Qabs_pos (2 ^ cexp q)) by lra.
  apply Qle_shift_div_r; [done|]. rewrite <- pow2_add.
  apply Qle_trans with (2 ^ mag q); [lra|]. apply pow2_le. lia.
Qed.

Lemma rne_idem q : rne (rne q) == rne q.
Proof.
  pose proof (rne_mantissa q) as Hm. pose proof (cexp_ge q) as Hc.
  set (n := Qnearest_even (q / 2 ^ cexp q)) in *.
  destruct (Z.eq_dec (Z.abs n) (2 ^ 53)%Z) as [E|NE].
  - zpow 53%Z.
    assert (Hn : n = (2 ^ 52 * 2)%Z \/ n = (- 2 ^ 52 * 2)%Z) by lia.
    destruct Hn as [Hn|Hn];
      [apply (rne_repr _ (2 ^ 52) (cexp q + 1))|apply (rne_repr _ (- 2 ^ 52) (cexp q + 1))];
      try done; try lia;
      unfold rne; fold n; rewrite pow2_succ, Hn, inject_Z_mult;
      change (inject_Z 2) with 2; ring.
  - apply (rne_repr _ n (cexp q)); [reflexivity|lia|done].
Qed.

(** A binary64 number of magnitude at least [2 ^ 52] is an integer. *)
Lemma rne_integer q : 2 ^ 52 <= Qabs q -> exists z, rne q == inject_Z z.
Proof.
  intros H.
  assert (H0 : ~ q == 0).
  { intros E. rewrite E in H. change (Qabs 0) with 0 in H.
    pose proof (pow2_pos 52). lra. }
  destruct (mag_spec q H0) as [_ B].
  assert (52 < mag q)%Z by (apply pow2_lt_inv; lra).
  assert (0 <= cexp q)%Z by (unfold cexp; lia).
  exists (Qnearest_even (q / 2 ^ cexp q) * 2 ^ cexp q)%Z.
  unfold rne. by rewrite inject_Z_mult, pow2_Z.
Qed.

(** No overflow below [2 ^ 1023]. *)
Lemma rne_bounded q k : (-1074 <= k)%Z -> Qabs q <= 2 ^ k -> Qabs (rne q) <= 2 ^ k.
Proof.
  intros Hk H. apply Qabs_Qle_condition in H as [H1 H2].
  apply Qabs_Qle_condition. split.
  - assert (E : - 2 ^ k == rne (- 2 ^ k)).
    { symmetry. apply (rne_repr _ (-1) k); [|lia..].
      change (inject_Z (-1)) with (-1#1). ring. }
    rewrite E. by apply rne_le.
  - rewrite <- (rne_pow2 k Hk). by apply rne_le.
Qed.

Lemma round64_finite q : Qabs q <= 2 ^ 1023 -> round64 q = Finite (rne q).
Proof.
  intros H. unfold round64.
  destruct (Qle_bool (2 ^ 1024) (Qabs (rne q))) eqn:E; [|done].
  apply Qle_bool_iff in E. pose proof (rne_bounded q 1023 ltac:(lia) H).
  assert (2 ^ 1023 < 2 ^ 1024) by (by apply pow2_lt). lra.
Qed.
End Rne.

(** ** The operations of binary64 on finite numbers *)

Section IeeeOps.
Local Open Scope Q_scope.

Lemma Qabs_le_nonneg q b : 0 <= q -> q <= b -> Qabs q <= b.
Proof. intros H0 Hb. by rewrite Qabs_pos. Qed.

Lemma inject_Z_nonneg z : (0 <= z)%Z -> 0 <= inject_Z z.
Proof. intros H. change 0 with (inject_Z 0). by rewrite <- Zle_Qle. Qed.

Lemma inject_Z_pos z : (0 < z)%Z -> 0 < inject_Z z.
Proof. intros H. change 0 with (inject_Z 0). by rewrite <- Zlt_Qlt. Qed.

Lemma inject_Z_le_pow2 z k : (0 <= k)%Z -> (z <= 2 ^ k)%Z -> inject_Z z <= 2 ^ k.
Proof. intros Hk H. rewrite <- pow2_Z by done. by rewrite <- Zle_Qle. Qed.

Lemma inject_Z_lt_pow2 z k : (0 <= k)%Z -> (z < 2 ^ k)%Z -> inject_Z z < 2 ^ k.
Proof. intros Hk H. rewrite <- pow2_Z by done. by rewrite <- Zlt_Qlt. Qed.

Lemma d_of_int_finite z : Qabs (inject_Z z) <= 2 ^ 1023 ->
  d_of_int z = OK (Finite (rne (inject_Z z))).
Proof. intros H. unfold d_of_int. by rewrite round64_finite. Qed.

Lemma d_truediv_finite a b : b <> 0%Z -> Qabs (inject_Z a / inject_Z b) <= 2 ^ 1023 ->
  d_truediv a b = OK (Finite (rne (inject_Z a / inject_Z b))).
Proof.
  intros Hb H. unfold d_truediv. rewrite (proj2 (Z.eqb_neq b 0) Hb).
  by rewrite round64_finite.
Qed.

Lemma d_add_finite a b : Qabs (a + b) <= 2 ^ 1023 ->
  d_add (Finite a) (Finite b) = Finite (rne (a + b)).
Proof. intros H. cbn [d_add]. by rewrite round64_finite. Qed.

Lemma d_sub_finite a b : Qabs (a + - b) <= 2 ^ 1023 ->
  d_sub (Finite a) (Finite b) = Finite (rne (a + - b)).
Proof. intros H. unfold d_sub. cbn [d_opp]. by apply d_add_finite. Qed.

Lemma d_mul_finite a b : Qabs (a * b) <= 2 ^ 1023 ->
  d_mul (Finite a) (Finite b) = Finite (rne (a * b)).
Proof. intros H. cbn [d_mul]. by rewrite round64_finite. Qed.

Lemma d_div_finite a b : ~ b == 0 -> Qabs (a / b) <= 2 ^ 1023 ->
  d_div (Finite a) (Finite b) = OK (Finite (rne (a / b))).
Proof.
  intros Hb H. cbn [d_div].
  destruct (Qeq_bool b 0) eqn:E; [by apply Qeq_bool_iff in E|].
  by rewrite round64_finite.
Qed.

Lemma pow2_53_1023 : 2 ^ 53 <= 2 ^ 1023.
Proof. by apply pow2_le. Qed.

Lemma rne_Z_nonneg z : (0 <= z <= 2 ^ 53)%Z -> rne (inject_Z z) == inject_Z z.
Proof. intros H. apply rne_Z. lia. Qed.

(** [int((c + 0.5) * w)] *)
Lemma ieee_center c w :
  (0 <= c < 2 ^ 52)%Z -> 0 <= w -> (inject_Z c + (1 # 2)) * w <= 2 ^ 1023 ->
  float_of_int (PyFloat := ieee) c = OK (Finite (rne (inject_Z c))) /\
  int_of_float (PyFloat := ieee) (fmul (fadd (Finite (rne (inject_Z c))) lit_0_5) (Finite w))
  = OK (Qfloor (rne ((inject_Z c + (1 # 2)) * w))).
Proof.
  intros Hc Hw Hb.
  pose proof (inject_Z_nonneg c (proj1 Hc)) as Hc0.
  pose proof (inject_Z_lt_pow2 c 52 ltac:(lia) (proj2 Hc)) as Hc1.
  pose proof pow2_53_1023 as H53.
  assert (E1 : rne (inject_Z c) == inject_Z c) by (apply rne_Z; zpow 52%Z; zpow 53%Z; lia).
  assert (E2 : rne (rne (inject_Z c) + (1 # 2)) == inject_Z c + (1 # 2)).
  { rewrite E1. apply rne_half. lia. }
  cbn [float_of_int ieee int_of_float fmul fadd lit_0_5].
  split; [apply d_of_int_finite, Qabs_le_nonneg; lra|].
  rewrite d_add_finite by (rewrite E1; apply Qabs_le_nonneg; lra).
  assert (E3 : rne (rne (inject_Z c) + (1 # 2)) * w == (inject_Z c + (1 # 2)) * w)
    by (by rewrite E2).
  assert (Hp : 0 <= (inject_Z c + (1 # 2)) * w) by (apply Qmult_le_0_compat; lra).
  rewrite d_mul_finite by (rewrite E3; by apply Qabs_le_nonneg).
  cbn [d_to_int]. f_equal.
  rewrite Qtrunc_nonneg by (apply rne_nonneg; by rewrite E3).
  apply Qfloor_comp. by rewrite E3.
Qed.

(** [int((r - 0.5) * h)] *)
Lemma ieee_row_center r h :
  (1 <= r <= 2 ^ 52)%Z -> 0 <= h -> (inject_Z (r - 1) + (1 # 2)) * h <= 2 ^ 1023 ->
  float_of_int (PyFloat := ieee) r = OK (Finite (rne (inject_Z r))) /\
  int_of_float (PyFloat := ieee) (fmul (fsub (Finite (rne (inject_Z r))) lit_0_5) (Finite h))
  = OK (Qfloor (rne ((inject_Z (r - 1) + (1 # 2)) * h))).
Proof.
  intros Hr Hh Hb.
  assert (Hr0 : 1 <= inject_Z r).
  { change 1 with (inject_Z 1). rewrite <- Zle_Qle. lia. }
  pose proof (inject_Z_le_pow2 r 52 ltac:(lia) (proj2 Hr)) as Hr1.
  pose proof pow2_53_1023 as H53.
  assert (H52 : 2 ^ 52 <= 2 ^ 53) by (by apply pow2_le).
  assert (E0 : inject_Z r + - (1 # 2) == inject_Z (r - 1) + (1 # 2)).
  { replace (r - 1)%Z with (r + -1)%Z by lia. rewrite inject_Z_plus.
    change (inject_Z (-1)) with (-1 # 1). lra. }
  assert (E1 : rne (inject_Z r) == inject_Z r) by (apply rne_Z; zpow 52%Z; zpow 53%Z; lia).
  assert (E2 : rne (rne (inject_Z r) + - (1 # 2)) == inject_Z (r - 1) + (1 # 2)).
  { rewrite E1, E0. apply rne_half. lia. }
  cbn [float_of_int ieee int_of_float fmul fsub lit_0_5].
  split; [apply d_of_int_finite, Qabs_le_nonneg; lra|].
  rewrite d_sub_finite by (rewrite E1; apply Qabs_le_nonneg; lra).
  assert (E3 : rne (rne (inject_Z r) + - (1 # 2)) * h == (inject_Z (r - 1) + (1 # 2)) * h)
    by (by rewrite E2).
  assert (Hp : 0 <= (inject_Z (r - 1) + (1 # 2)) * h).
  { apply Qmult_le_0_compat; [|done]. rewrite <- E0. lra. }
  rewrite d_mul_finite by (rewrite E3; by apply Qabs_le_nonneg).
  cbn [d_to_int]. f_equal.
  rewrite Qtrunc_nonneg by (apply rne_nonneg; by rewrite E3).
  apply Qfloor_comp. by rewrite E3.
Qed.


(** [int(x / w)] *)
Lemma ieee_int_div x w :
  Qabs (inject_Z x) <= 2 ^ 1023 -> ~ w == 0 -> Qabs (rne (inject_Z x) / w) <= 2 ^ 1023 ->
  int_div (PF := ieee) x (Finite w) = OK (Qtrunc (rne (rne (inject_Z x) / w))).
Proof.
  intros Hx Hw Hb. unfold int_div. cbn [float_of_int ieee int_of_float fdiv].
  rewrite d_of_int_finite by done. cbn [mbind result_bind].
  by rewrite d_div_finite.
Qed.
End IeeeOps.

(** ** Cells in binary64 *)

Ltac unit_roundoff := change (2 ^ (-53))%Q with (1 # 9007199254740992)%Q in *.

Section IeeeCells.
Local Open Scope Q_scope.

(** The rounding of a number of the normal range, within the unit
    roundoff. *)
Lemma rne_rel q : 2 ^ (-1022) <= q ->
  q * (1 - 2 ^ (-53)) <= rne q /\ rne q <= q * (1 + 2 ^ (-53)).
Proof.
  intros H. pose proof (pow2_pos (-1022)) as Hp.
  assert (Ha : Qabs q == q) by (apply Qabs_pos; lra).
  pose proof (rne_rel_err q) as He. rewrite Ha in He.
  specialize (He H). apply Qabs_Qle_condition in He. lra.
Qed.

Lemma pow2_m1022_le_1 : 2 ^ (-1022) <= 1.
Proof. change 1 with (2 ^ 0). by apply pow2_le. Qed.

(** The truncated centre of column [c] lies in it, in binary64, when the
    cell is at least two pixels wide. *)
Lemma center_in_wide_cell c w :
  (0 <= c < 2 ^ 51)%Z -> 2 <= w ->
  let x := Qfloor (rne ((inject_Z c + (1 # 2)) * w)) in
  (0 <= x)%Z /\ rne (inject_Z x) == inject_Z x /\
  0 <= inject_Z x / w <= inject_Z c + 1 /\ Qfloor (rne (inject_Z x / w)) = c.
Proof.
  intros Hc Hw. cbn zeta.
  pose proof (inject_Z_nonneg c (proj1 Hc)) as Hc0.
  assert (Hc1 : inject_Z c <= 2251799813685247).
  { change 2251799813685247 with (inject_Z 2251799813685247).
    rewrite <- Zle_Qle. zpow 51%Z. lia. }
  set (p := (inject_Z c + (1 # 2)) * w).
  assert (Hp1 : 1 <= p) by (unfold p; nra).
  pose proof pow2_m1022_le_1 as Hm.
  destruct (rne_rel p ltac:(lra)) as [Rlo Rhi]. unit_roundoff.
  assert (Hx0 : 0 <= rne p) by (apply rne_nonneg; lra).
  assert (Hfl : inject_Z (Qfloor (rne p)) <= rne p) by apply Qfloor_le.
  assert (H : inject_Z c * w <= inject_Z (Qfloor (rne p)) /\
              rne (inject_Z (Qfloor (rne p))) == inject_Z (Qfloor (rne p))).
  { destruct (Qlt_le_dec (2 ^ 53) p) as [Hbig|Hsmall].
    - destruct (rne_integer p) as [z Hz].
      { rewrite Qabs_pos by lra. apply Qle_trans with (2 ^ 53); [by apply pow2_le|lra]. }
      assert (Ez : Qfloor (rne p) = z) by (by rewrite (Qfloor_comp _ _ Hz), Qfloor_Z).
      rewrite Ez, <- Hz. split; [|apply rne_idem].
      unfold p in *. nra.
    - pose proof (Qlt_floor_succ (inject_Z c * w)) as Hn1.
      pose proof (Qfloor_le (inject_Z c * w)) as Hn2.
      set (n := Qfloor (inject_Z c * w)) in *.
      assert (Hnp : inject_Z (n + 1) <= p).
      { rewrite inject_Z_plus. change (inject_Z 1) with 1. unfold p. nra. }
      assert (Hn53 : (Z.abs (n + 1) <= 2 ^ 53)%Z).
      { assert (0 <= n)%Z.
        { unfold n. rewrite <- (Qfloor_Z 0). apply Qfloor_resp_le.
          change (inject_Z 0) with 0. nra. }
        assert (n + 1 <= 2 ^ 53)%Z; [|lia].
        rewrite Zle_Qle, pow2_Z by lia. lra. }
      assert (Hge : inject_Z (n + 1) <= rne p).
      { rewrite <- (rne_Z (n + 1) Hn53). by apply rne_le. }
      assert (Hxn : (n + 1 <= Qfloor (rne p))%Z).
      { rewrite <- (Qfloor_Z (n + 1)). by apply Qfloor_resp_le. }
      split.
      + rewrite Zle_Qle in Hxn. rewrite inject_Z_plus in Hxn.
        change (inject_Z 1) with 1 in Hxn. lra.
      + apply rne_Z.
        assert (rne p <= 2 ^ 53) by (rewrite <- (rne_pow2 53) by lia; by apply rne_le).
        assert (Qfloor (rne p) <= 2 ^ 53)%Z by (rewrite Zle_Qle, pow2_Z by lia; lra).
        lia. }
  destruct H as [Hlow Hx].
  split; [|split; [done|]].
  { rewrite <- (Qfloor_Z 0). by apply Qfloor_resp_le. }
  set (x := inject_Z (Qfloor (rne p))) in *.
  assert (Hq1 : inject_Z c <= x / w) by (apply Qle_shift_div_l; lra).
  assert (Hq2 : x / w <= inject_Z c + (3 # 4)).
  { apply Qle_shift_div_r; [lra|]. unfold p in *. nra. }
  split; [lra|].
  apply Qfloor_unique.
  - rewrite <- (rne_Z c) by (zpow 51%Z; zpow 53%Z; lia). by apply rne_le.
  - apply Qle_lt_trans with (inject_Z c + (3 # 4)).
    + rewrite <- (rne_three_quarters c) by lia. by apply rne_le.
    + rewrite inject_Z_plus. change (inject_Z 1) with 1. lra.
Qed.

(** The same for a cell of one pixel. *)
Lemma center_in_unit_cell c w :
  (0 <= c < 2 ^ 51)%Z -> w == 1 ->
  let x := Qfloor (rne ((inject_Z c + (1 # 2)) * w)) in
  (0 <= x)%Z /\ rne (inject_Z x) == inject_Z x /\
  0 <= inject_Z x / w <= inject_Z c + 1 /\ Qfloor (rne (inject_Z x / w)) = c.
Proof.
  intros Hc Hw. cbn zeta.
  pose proof (inject_Z_nonneg c (proj1 Hc)) as Hc0.
  assert (E : rne ((inject_Z c + (1 # 2)) * w) == inject_Z c + (1 # 2)).
  { transitivity (rne (inject_Z c + (1 # 2))).
    - apply rne_comp. rewrite Hw. ring.
    - apply rne_half. zpow 51%Z. zpow 52%Z. lia. }
  assert (Ex : Qfloor (rne ((inject_Z c + (1 # 2)) * w)) = c).
  { rewrite (Qfloor_comp _ _ E). apply Qfloor_unique; [lra|].
    rewrite inject_Z_plus. change (inject_Z 1) with 1. lra. }
  rewrite Ex. split; [lia|].
  assert (Ec : rne (inject_Z c) == inject_Z c) by (apply rne_Z; zpow 51%Z; zpow 53%Z; lia).
  split; [done|].
  assert (E3 : inject_Z c / w == inject_Z c) by (rewrite Hw; field).
  split; [rewrite E3; lra|].
  assert (E2 : rne (inject_Z c / w) == inject_Z c).
  { transitivity (rne (inject_Z c)); [|done]. by apply rne_comp. }
  rewrite (Qfloor_comp _ _ E2). apply Qfloor_Z.
Qed.

Lemma center_in_cell_rne c w :
  (0 <= c < 2 ^ 51)%Z -> 2 <= w \/ w == 1 ->
  let x := Qfloor (rne ((inject_Z c + (1 # 2)) * w)) in
  (0 <= x)%Z /\ rne (inject_Z x) == inject_Z x /\
  0 <= inject_Z x / w <= inject_Z c + 1 /\ Qfloor (rne (inject_Z x / w)) = c.
Proof.
  intros Hc [Hw|Hw]; [by apply center_in_wide_cell|by apply center_in_unit_cell].
Qed.

(** *** One dimension of the screen: its size, the count of cells and the
    binary64 cell size *)

Section Dimension.
Variables n S : Z.
Hypothesis Hn : (1 <= n <= 2 ^ 50)%Z.
Hypothesis HS : (1 <= S <= 2 ^ 1023)%Z.

Lemma count_bounds : 1 <= inject_Z n /\ inject_Z n <= 1125899906842624.
Proof.
  split.
  - change 1 with (inject_Z 1). rewrite <- Zle_Qle. lia.
  - change 1125899906842624 with (inject_Z (2 ^ 50)). rewrite <- Zle_Qle. lia.
Qed.

Lemma size_bounds : 1 <= inject_Z S /\ inject_Z S <= 2 ^ 1023.
Proof.
  split.
  - change 1 with (inject_Z 1). rewrite <- Zle_Qle. lia.
  - apply inject_Z_le_pow2; lia.
Qed.

Lemma quotient_times : inject_Z S / inject_Z n * inject_Z n == inject_Z S.
Proof. destruct count_bounds. field. lra. Qed.

Lemma quotient_bounds :
  (1 # 1125899906842624) <= inject_Z S / inject_Z n /\
  inject_Z S / inject_Z n <= inject_Z S.
Proof.
  destruct count_bounds as [N1 N2]. destruct size_bounds as [S1 S2]. split.
  - apply Qle_shift_div_l; [lra|]. nra.
  - apply Qle_shift_div_r; [lra|]. nra.
Qed.

Lemma cell_size_rel :
  inject_Z S / inject_Z n * (1 - 2 ^ (-53)) <= cell_size S n /\
  cell_size S n <= inject_Z S / inject_Z n * (1 + 2 ^ (-53)).
Proof.
  apply rne_rel. destruct quotient_bounds as [Q1 _].
  apply Qle_trans with (1 # 1125899906842624); [|done].
  change (1 # 1125899906842624) with (2 ^ (-50)). by apply pow2_le.
Qed.

Lemma cell_size_gt_0 : 0 < cell_size S n.
Proof.
  destruct cell_size_rel as [R1 _]. destruct quotient_bounds as [Q1 _].
  unit_roundoff. nra.
Qed.

Lemma cell_size_le : cell_size S n <= 2 ^ 1023.
Proof.
  destruct quotient_bounds as [Q1 Q2]. destruct size_bounds as [S1 S2].
  unfold cell_size. rewrite <- (rne_pow2 1023) by lia. apply rne_le. lra.
Qed.

(** Cells of at least two pixels, or of integral size, have a binary64 size
    of at least two, or of one. *)
Lemma cell_size_fits : cell_fits S n -> 2 <= cell_size S n \/ cell_size S n == 1.
Proof.
  destruct count_bounds as [N1 N2]. destruct size_bounds as [S1 S2].
  assert (Hwide : (2 * n <= S)%Z -> 2 <= cell_size S n).
  { intros H. unfold cell_size.
    assert (E : rne 2 == 2) by (apply (rne_pow2 1); lia).
    rewrite <- E. apply rne_le. apply Qle_shift_div_l; [lra|].
    change 2 with (inject_Z 2). rewrite <- inject_Z_mult, <- Zle_Qle. lia. }
  intros [H|[k Hk]]; [left; by apply Hwide|].
  destruct (Z.eq_dec k 1%Z) as [->|Hk1].
  - right. unfold cell_size.
    assert (E : rne 1 == 1) by (apply (rne_pow2 0); lia).
    transitivity (rne 1); [|done]. apply rne_comp. rewrite Hk, Z.mul_1_l. field. lra.
  - left. apply Hwide. nia.
Qed.

(** The centre of a cell lies on the screen, before and after rounding. *)
Lemma center_lt_size c : (0 <= c < n)%Z ->
  0 <= (inject_Z c + (1 # 2)) * cell_size S n /\
  (inject_Z c + (1 # 2)) * cell_size S n <= inject_Z S /\
  rne ((inject_Z c + (1 # 2)) * cell_size S n) < inject_Z S.
Proof.
  intros Hc.
  destruct count_bounds as [N1 N2]. destruct size_bounds as [S1 S2].
  destruct quotient_bounds as [Q1 Q2]. destruct cell_size_rel as [R1 R2].
  pose proof quotient_times as ET. pose proof cell_size_gt_0 as Hw.
  pose proof (inject_Z_nonneg c (proj1 Hc)) as Hc0.
  assert (Hc1 : inject_Z c + 1 <= inject_Z n).
  { change 1 with (inject_Z 1). rewrite <- inject_Z_plus, <- Zle_Qle. lia. }
  set (t := inject_Z S / inject_Z n) in *. set (w := cell_size S n) in *.
  set (N := inject_Z n) in *. set (C := inject_Z c) in *.
  unit_roundoff.
  assert (P0 : 0 <= (C + (1 # 2)) * w) by nra.
  assert (P1 : (C + (1 # 2)) * w <= (N - (1 # 2)) * w) by nra.
  assert (P2 : (N - (1 # 2)) * w <= (N - (1 # 2)) * (t * (1 + (1 # 9007199254740992)))) by nra.
  assert (P3 : t * N * (1 # 9007199254740992) <= t * (1 # 8)) by nra.
  assert (P4 : (C + (1 # 2)) * w <= inject_Z S - t * (3 # 8)) by nra.
  split; [done|]. split; [nra|].
  assert (Hp : 2 ^ (-1022) <= (C + (1 # 2)) * w).
  { apply Qle_trans with (2 ^ (-52)); [by apply pow2_le|].
    change (2 ^ (-52)) with (1 # 4503599627370496). nra. }
  destruct (rne_rel _ Hp) as [_ Rhi]. unit_roundoff.
  set (p := (C + (1 # 2)) * w) in *.
  assert (P5 : p * (1 # 9007199254740992) <= t * (1 # 8)) by nra.
  nra.
Qed.
End Dimension.
End IeeeCells.

(** ** The converter in binary64 *)

Section PixelIndices.
Context {F : Type} {PF : PyFloat F} (cfg : GridConfig F).

(** [pixel_to_grid] names the cell of the two clamped quotients. *)
Lemma pixel_to_grid_of_indices x y a b :
  1 <= cols cfg ->
  int_div x (cell_width cfg) = OK a -> int_div y (cell_height cfg) = OK b ->
  pixel_to_grid cfg x y = OK (label (clamp a (cols cfg - 1)) (clamp b (rows cfg - 1) + 1)).
Proof.
  intros Hc Ha Hb. unfold pixel_to_grid. rewrite Ha, Hb. cbn [mbind result_bind].
  fold (clamp a (cols cfg - 1)). fold (clamp b (rows cfg - 1)).
  rewrite col_letters_lookup; [reflexivity|].
  pose proof (clamp_range a (cols cfg - 1)). lia.
Qed.

(** [grid_to_pixel] on a label of the grid, from the results of its four
    float computations. *)
Lemma grid_to_pixel_of_centres c r fc fr x y :
  0 <= c < cols cfg -> cols cfg <= 32 -> 1 <= r <= rows cfg ->
  float_of_int c = OK fc ->
  int_of_float (fmul (fadd fc lit_0_5) (cell_width cfg)) = OK x ->
  float_of_int r = OK fr ->
  int_of_float (fmul (fsub fr lit_0_5) (cell_height cfg)) = OK y ->
  grid_to_pixel cfg (label c r) = OK (x, y).
Proof.
  intros Hc H32 Hr E1 E2 E3 E4. rewrite grid_to_pixel_label by done.
  rewrite E1. cbn [mbind result_bind]. rewrite E2. cbn [mbind result_bind].
  rewrite E3. cbn [mbind result_bind]. rewrite E4. reflexivity.
Qed.
End PixelIndices.

Section IeeeConverter.
Variable s : GridSpec.
Hypothesis HC : 1 <= grid_cols s <= 2 ^ 50.
Hypothesis HR : 1 <= grid_rows s <= 2 ^ 50.
Hypothesis HW : 1 <= screen_width s <= 2 ^ 1023.
Hypothesis HH : 1 <= screen_height s <= 2 ^ 1023.

Lemma grid_config_ieee : grid_config (PF := ieee) s = OK (ieee_config s).
Proof.
  unfold grid_config. cbn [int_truediv ieee].
  destruct (quotient_bounds _ _ HC HW) as [Q1 Q2].
  destruct (quotient_bounds _ _ HR HH) as [Q3 Q4].
  destruct (size_bounds _ HW) as [_ S2]. destruct (size_bounds _ HH) as [_ S4].
  rewrite !d_truediv_finite; [reflexivity|lia|..|lia|].
  - apply Qabs_le_nonneg; lra.
  - apply Qabs_le_nonneg; lra.
Qed.

(** The centre of a cell, as [grid_to_pixel] computes it. *)
Lemma grid_to_pixel_ieee c r :
  0 <= c < grid_cols s -> grid_cols s <= 32 -> 1 <= r <= grid_rows s ->
  grid_to_pixel (ieee_config s) (label c r) =
    OK (Qfloor (rne ((inject_Z c + (1 # 2)) * cell_size (screen_width s) (grid_cols s))),
        Qfloor (rne ((inject_Z (r - 1) + (1 # 2))
                     * cell_size (screen_height s) (grid_rows s)))).
Proof.
  intros Hc H32 Hr.
  destruct (center_lt_size _ _ HC HW c Hc) as (_ & Px & _).
  assert (Hr' : 0 <= r - 1 < grid_rows s) by (clear HW HH; lia).
  destruct (center_lt_size _ _ HR HH (r - 1) Hr') as (_ & Py & _).
  destruct (size_bounds _ HW) as [_ S2]. destruct (size_bounds _ HH) as [_ S4].
  pose proof (cell_size_gt_0 _ _ HC HW) as Hw. pose proof (cell_size_gt_0 _ _ HR HH) as Hh.
  assert (Hc52 : 0 <= c < 2 ^ 52) by (clear HW HH; lia).
  assert (Hr52 : 1 <= r <= 2 ^ 52) by (clear HW HH; lia).
  destruct (ieee_center c (cell_size (screen_width s) (grid_cols s)))
    as [E1 E2]; [exact Hc52|by apply Qlt_le_weak|by eapply Qle_trans|].
  destruct (ieee_row_center r (cell_size (screen_height s) (grid_rows s)))
    as [E3 E4]; [exact Hr52|by apply Qlt_le_weak|by eapply Qle_trans|].
  exact (grid_to_pixel_of_centres (ieee_config s) c r _ _ _ _ Hc H32 Hr E1 E2 E3 E4).
Qed.

(** The label of a point, as [pixel_to_grid] computes it, when neither
    quotient overflows. *)
Lemma pixel_to_grid_ieee x y :
  (Qabs (inject_Z x) <= 2 ^ 1023)%Q -> (Qabs (inject_Z y) <= 2 ^ 1023)%Q ->
  (Qabs (rne (inject_Z x) / cell_size (screen_width s) (grid_cols s)) <= 2 ^ 1023)%Q ->
  (Qabs (rne (inject_Z y) / cell_size (screen_height s) (grid_rows s)) <= 2 ^ 1023)%Q ->
  pixel_to_grid (ieee_config s) x y =
    OK (label
          (clamp (Qfloor (rne (rne (inject_Z x) / cell_size (screen_width s) (grid_cols s))))
                 (grid_cols s - 1))
          (clamp (Qfloor (rne (rne (inject_Z y) / cell_size (screen_height s) (grid_rows s))))
                 (grid_rows s - 1) + 1)).
Proof.
  intros Hx Hy Hqx Hqy.
  pose proof (cell_size_gt_0 _ _ HC HW) as Hw. pose proof (cell_size_gt_0 _ _ HR HH) as Hh.
  assert (Hw0 : ~ (cell_size (screen_width s) (grid_cols s) == 0)%Q).
  { intros E. rewrite E in Hw. by apply Qlt_irrefl in Hw. }
  assert (Hh0 : ~ (cell_size (screen_height s) (grid_rows s) == 0)%Q).
  { intros E. rewrite E in Hh. by apply Qlt_irrefl in Hh. }
  rewrite (pixel_to_grid_of_indices (ieee_config s) x y _ _
             ltac:(cbn [ieee_config cols]; lia)
             (ieee_int_div x _ Hx Hw0 Hqx) (ieee_int_div y _ Hy Hh0 Hqy)).
  cbn [ieee_config cols rows].
  rewrite !clamp_trunc by lia. reflexivity.
Qed.

(** The centre of a cell is mapped back to its label. *)
Lemma round_trip_ieee c r :
  0 <= c < grid_cols s -> grid_cols s <= 32 -> 1 <= r <= grid_rows s ->
  cell_fits (screen_width s) (grid_cols s) ->
  cell_fits (screen_height s) (grid_rows s) ->
  round_trip (ieee_config s) (label c r) = OK (label c r).
Proof.
  intros Hc H32 Hr Hfw Hfh. unfold round_trip.
  rewrite grid_to_pixel_ieee by done. cbn [mbind result_bind].
  set (cw := cell_size (screen_width s) (grid_cols s)).
  set (ch := cell_size (screen_height s) (grid_rows s)).
  destruct (center_in_cell_rne c cw) as (Hx0 & Ex & [Hx1 Hx2] & Fx);
    [lia|by apply cell_size_fits|].
  destruct (center_in_cell_rne (r - 1) ch) as (Hy0 & Ey & [Hy1 Hy2] & Fy);
    [lia|by apply cell_size_fits|].
  destruct (center_lt_size _ _ HC HW c Hc) as (_ & _ & Px).
  destruct (center_lt_size _ _ HR HH (r - 1) ltac:(lia)) as (_ & _ & Py).
  fold cw in Px. fold ch in Py.
  set (x := Qfloor (rne ((inject_Z c + (1 # 2)) * cw))) in *.
  set (y := Qfloor (rne ((inject_Z (r - 1) + (1 # 2)) * ch))) in *.
  destruct (size_bounds _ HW) as [_ S2]. destruct (size_bounds _ HH) as [_ S4].
  pose proof (Qfloor_le (rne ((inject_Z c + (1 # 2)) * cw))) as Lx. fold x in Lx.
  pose proof (Qfloor_le (rne ((inject_Z (r - 1) + (1 # 2)) * ch))) as Ly. fold y in Ly.
  pose proof (inject_Z_nonneg x Hx0) as Hx0'. pose proof (inject_Z_nonneg y Hy0) as Hy0'.
  assert (Hc50 : (inject_Z c + 1 <= 2 ^ 1023)%Q).
  { apply Qle_trans with (2 ^ 50)%Q; [|by apply pow2_le].
    change 1%Q with (inject_Z 1). rewrite <- inject_Z_plus. apply inject_Z_le_pow2; lia. }
  assert (Hr50 : (inject_Z (r - 1) + 1 <= 2 ^ 1023)%Q).
  { apply Qle_trans with (2 ^ 50)%Q; [|by apply pow2_le].
    change 1%Q with (inject_Z 1). rewrite <- inject_Z_plus. apply inject_Z_le_pow2; lia. }
  assert (Eqx : (rne (inject_Z x) / cw == inject_Z x / cw)%Q) by (by rewrite Ex).
  assert (Eqy : (rne (inject_Z y) / ch == inject_Z y / ch)%Q) by (by rewrite Ey).
  rewrite pixel_to_grid_ieee.
  - fold cw ch.
    rewrite (Qfloor_comp _ _ (rne_comp _ _ Eqx)), (Qfloor_comp _ _ (rne_comp _ _ Eqy)).
    rewrite Fx, Fy. rewrite !clamp_id by lia. do 2 f_equal. lia.
  - apply Qabs_le_nonneg; lra.
  - apply Qabs_le_nonneg; lra.
  - fold cw. rewrite Eqx. apply Qabs_le_nonneg; lra.
  - fold ch. rewrite Eqy. apply Qabs_le_nonneg; lra.
Qed.
End IeeeConverter.

(** ** Points and cells in binary64 *)

Section IeeePoints.
Local Open Scope Q_scope.
Variables n S : Z.
Hypothesis Hn : (1 <= n <= 2 ^ 50)%Z.
Hypothesis HS : (1 <= S <= 2 ^ 1023)%Z.






End IeeePoints.

Section IeeeInside.
Local Open Scope Q_scope.
Variables n S : Z.
Hypothesis Hn : (1 <= n <= 2 ^ 50)%Z.
Hypothesis HS : (1 <= S <= 2 ^ 50)%Z.




End IeeeInside.

Section IeeeBounds.
Variable s : GridSpec.
Hypothesis HC : 1 <= grid_cols s <= 2 ^ 50.
Hypothesis HR : 1 <= grid_rows s <= 2 ^ 50.
Hypothesis HW : 1 <= screen_width s <= 2 ^ 50.
Hypothesis HH : 1 <= screen_height s <= 2 ^ 50.


End IeeeBounds.

(** ** Pixel to grid: totality and clamping *)




(** ** Round trip *)

(** C1, amended: in binary64 arithmetic, on every grid with 1 to 32 columns
    and 1 to [2^50] rows, a screen of 1 to [2^1023] pixels each way and cells
    that are at least two pixels wide and high or of integral size (W >= 2C
    or C divides W, and H >= 2R or R divides H), the centre [grid_to_pixel]
    gives for a label of the grid is mapped back to that label by
    [pixel_to_grid]. *)
Theorem round_trip_label (s : GridSpec) (c r : Z) :
  1 <= grid_cols s <= 32 -> 1 <= grid_rows s <= 2 ^ 50 ->
  1 <= screen_width s <= 2 ^ 1023 -> 1 <= screen_height s <= 2 ^ 1023 ->
  cell_fits (screen_width s) (grid_cols s) ->
  cell_fits (screen_height s) (grid_rows s) ->
  0 <= c < grid_cols s -> 1 <= r <= grid_rows s ->
  on_grid (PF := ieee) s (fun cfg => round_trip cfg (label c r)) = OK (label c r).
Proof.
  intros HC HR HW HH Hfw Hfh Hc Hr.
  assert (HC' : 1 <= grid_cols s <= 2 ^ 50) by (zpow 50; lia).
  unfold on_grid. rewrite grid_config_ieee by done. cbn [mbind result_bind].
  apply round_trip_ieee; (done || lia).
Qed.

Lemma round_trip_label_witness :
  1 <= 10 <= 32 /\ 1 <= 20 <= 2 ^ 50 /\ 1 <= 1080 <= 2 ^ 1023 /\ 1 <= 2400 <= 2 ^ 1023 /\
  cell_fits 1080 10 /\ cell_fits 2400 20 /\ 0 <= 4 < 10 /\ 1 <= 5 <= 20 /\
  on_grid (PF := ieee) spec_1080x2400 (fun cfg => round_trip cfg "E5") = OK "E5".
Proof.
  assert (F1 : cell_fits 1080 10) by (left; lia).
  assert (F2 : cell_fits 2400 20) by (left; lia).
  repeat (split; [first [lia | exact F1 | exact F2]|]).
  exact (round_trip_label spec_1080x2400 4 5
           ltac:(simpl; lia) ltac:(simpl; lia) ltac:(simpl; lia) ltac:(simpl; lia)
           F1 F2 ltac:(simpl; lia) ltac:(simpl; lia)).
Defined.

(** The two renderings of binary64 agree on the grids of the samples: on
    the centre and on the rectangle of every cell, and on the label of the
    points (9k, 20k) of a line across the screen and beyond it. *)
Lemma ieee_agrees_with_binary64 :
  forallb (fun s =>
    forallb (fun '(c, r) =>
      same_pair (on_grid (PF := ieee) s (fun cfg => grid_to_pixel cfg (label c r)))
                (on_grid (PF := binary64) s (fun cfg => grid_to_pixel cfg (label c r)))
      && same_bounds
           (on_grid (PF := ieee) s (fun cfg => get_cell_bounds cfg (label c r)))
           (on_grid (PF := binary64) s (fun cfg => get_cell_bounds cfg (label c r))))
      (all_labels s)
    && forallb (fun k =>
      same_str (on_grid (PF := ieee) s (fun cfg => pixel_to_grid cfg (9 * k) (20 * k)))
               (on_grid (PF := binary64) s (fun cfg => pixel_to_grid cfg (9 * k) (20 * k))))
      (seqZ (-20) 180))
    [spec_1080x2400; spec_1080x1920; spec_12x2400; spec_10x18; spec_10x14] = true.
Proof. vm_compute. reflexivity. Qed.


(** In binary64 arithmetic every label of the 10 x 20 grid makes the round
    trip as well. *)
Lemma round_trip_1080x2400_binary64 :
  forallb (fun '(c, r) =>
             returns_str (round_trip (PF := binary64) cfg_108x120 (label c r))
                         (label c r))
          (all_labels spec_1080x2400) = true.
Proof. vm_compute. reflexivity. Qed.

(** ** Binary64 on the 10 x 20 grid, and the tiling in exact arithmetic *)

(** In binary64 arithmetic on the 10 x 20 grid, for every x from -300 to 1399
    and every y from -300 to 2699, [pixel_to_grid] returns the label whose
    column index is [x / 108] and whose row index is [y / 120], rounded down
    and clamped. *)
Lemma pixel_to_grid_1080x2400_binary64 :
  forallb (fun x => returns_str (pixel_to_grid (PF := binary64) cfg_108x120 x 0)
                                (label (clamp (x / 108) 9) 1))
          (seqZ (-300) 1700) = true /\
  forallb (fun y => returns_str (pixel_to_grid (PF := binary64) cfg_108x120 0 y)
                                (label 0 (clamp (y / 120) 19 + 1)))
          (seqZ (-300) 3000) = true.
Proof. split; vm_compute; reflexivity. Qed.

(** In exact arithmetic the rectangles of [get_cell_bounds] tile the screen:
    a cell ends where its right and lower neighbours begin, the first column
    and row begin at 0, the last column ends at W and the last row at H. *)
Lemma cell_bounds_tile_exact (s : GridSpec) (c r : Z) :
  1 <= grid_cols s <= 26 -> 1 <= grid_rows s ->
  1 <= screen_width s -> 1 <= screen_height s ->
  0 <= c < grid_cols s -> 1 <= r <= grid_rows s ->
  exists left top right bottom,
    get_cell_bounds (exact_config s) (label c r) = OK (left, top, right, bottom) /\
    (c = 0 -> left = 0) /\ (r = 1 -> top = 0) /\
    (c = grid_cols s - 1 -> right = screen_width s) /\
    (r = grid_rows s -> bottom = screen_height s) /\
    (c + 1 < grid_cols s -> exists t' r' b',
       get_cell_bounds (exact_config s) (label (c + 1) r) = OK (right, t', r', b')) /\
    (r + 1 <= grid_rows s -> exists l' r' b',
       get_cell_bounds (exact_config s) (label c (r + 1)) = OK (l', bottom, r', b')).
Proof.
  intros HC HR HW HH Hc Hr.
  pose proof (cell_size_pos _ _ HW (proj1 HC)) as Hw.
  pose proof (cell_size_pos _ _ HH HR) as Hh.
  assert (Hb : forall c' r', 0 <= c' < grid_cols s -> 1 <= r' ->
    get_cell_bounds (exact_config s) (label c' r') =
      OK (Qfloor (inject_Z c' * cell_width (exact_config s)),
          Qfloor (inject_Z (r' - 1) * cell_height (exact_config s)),
          Qfloor (inject_Z (c' + 1) * cell_width (exact_config s)),
          Qfloor (inject_Z r' * cell_height (exact_config s)))).
  { intros c' r' Hc' Hr'. apply get_cell_bounds_exact; (done || simpl; lia). }
  eexists _, _, _, _. split; [apply Hb; lia|].
  cbn [exact_config cell_width cell_height].
  split; [|split; [|split; [|split; [|split]]]].
  - intros ->. rewrite Qmult_0_l. reflexivity.
  - intros ->. rewrite Qmult_0_l. reflexivity.
  - intros ->. replace (grid_cols s - 1 + 1) with (grid_cols s) by lia.
    rewrite (Qfloor_comp _ _ (cell_size_times _ _ (proj1 HC))). apply Qfloor_Z.
  - intros ->. rewrite (Qfloor_comp _ _ (cell_size_times _ _ HR)). apply Qfloor_Z.
  - intros Hn. eexists _, _, _. rewrite Hb by lia. reflexivity.
  - intros Hn. eexists _, _, _. rewrite Hb by lia.
    replace (r + 1 - 1) with r by lia. reflexivity.
Qed.

(** ** Validation of a response *)

Lemma in_strs_PStr s l : in_strs (PStr s) l = true <-> s ∈ l.
Proof.
  unfold in_strs. rewrite existsb_exists. split.
  - intros (x & Hx & Hs). apply bool_decide_eq_true in Hs. subst.
    by apply list_elem_of_In.
  - intros Hs. exists s. split; [by apply list_elem_of_In|].
    by apply bool_decide_eq_true.
Qed.

Lemma in_strs_inv v l : in_strs v l = true -> exists s, v = PStr s /\ s ∈ l.
Proof.
  destruct v; try (unfold in_strs; rewrite existsb_exists; by intros (? & ? & ?)).
  intros H. exists s. split; [done|]. by apply in_strs_PStr.
Qed.

Lemma in_strs_false v l : (forall s, s ∈ l -> v <> PStr s) -> in_strs v l = false.
Proof.
  intros H. destruct (in_strs v l) eqn:E; [|done].
  apply in_strs_inv in E as (s & -> & Hs). by destruct (H s Hs).
Qed.

(** Case analysis on membership in a list given in full. *)
Ltac elem_cases H :=
  repeat (apply elem_of_cons in H as [H|H]); [..|by apply elem_of_nil in H].

(** [x ∉ l], or [x ∈ l], for a list given in full. *)
Ltac elem_closed :=
  lazymatch goal with
  | |- ?x ∉ ?l => let H := fresh in intros H; elem_cases H; discriminate
  | |- ?x ∈ ?l => repeat first [apply list_elem_of_here | apply list_elem_of_further]
  end.

Section Validation.
Variable json_loads : string -> option pyval.

Lemma parse_response_text response text :
  first_text response = Some text -> text <> "" ->
  _parse_response json_loads response =
    match json_loads (json_text text) with
    | None => Raise (InvalidJSON (json_text text))
    | Some action => validate_action action
    end.
Proof.
  intros Hft Hne. unfold _parse_response. rewrite Hft.
  destruct text; [done|reflexivity].
Qed.

Lemma validate_dict_accepts (d : dict) s :
  d !! "action" = Some (PStr s) -> s ∈ ACTION_TYPES ->
  (s = "CLICK" -> is_Some (d !! "grid")) ->
  (s ∈ ["TYPE"; "SCROLL"; "AWAKE"] -> is_Some (d !! "value")) ->
  (s = "SCROLL" -> d !! "value" = Some (PStr "up") \/ d !! "value" = Some (PStr "down")) ->
  validate_dict d = OK d.
Proof.
  intros Ha Hs Hclick Hvalue Hscroll. unfold validate_dict. rewrite Ha.
  rewrite (proj2 (in_strs_PStr s ACTION_TYPES) Hs). cbn [negb].
  unfold py_eq_str at 1. case_bool_decide as Hc.
  { destruct (Hclick Hc) as [g ->]. reflexivity. }
  destruct (in_strs (PStr s) ["TYPE"; "SCROLL"; "AWAKE"]) eqn:Hin; [|reflexivity].
  apply in_strs_PStr in Hin. destruct (Hvalue Hin) as [v Hv]. rewrite Hv.
  unfold py_eq_str at 1. case_bool_decide as Hsc; [|reflexivity].
  destruct (Hscroll Hsc) as [Hu|Hu]; rewrite Hu in Hv; injection Hv as <-; reflexivity.
Qed.

(** C4: [_parse_response] on a response whose first text block is not empty.
    Text that [json.loads] rejects raises the invalid-JSON error, and a
    decoded value that is not an object is rejected too; an object whose
    action tag is not one of CLICK, TYPE, SCROLL, AWAKE, COMPLETE raises the
    invalid-action-type error; CLICK without [grid], and TYPE, SCROLL or AWAKE
    without [value], raise their missing-field errors; SCROLL with a value
    other than "up" and "down" raises the scroll-direction error; every other
    object with a recognised tag is returned as it is.  The five errors are
    pairwise different, and each is a [ValueError]. *)
Theorem parse_response_validation (response : list resp_block) (text : string) :
  first_text response = Some text -> text <> "" ->
  let parsed := _parse_response json_loads response in
  (json_loads (json_text text) = None ->
     parsed = Raise (InvalidJSON (json_text text))) /\
  (forall v, json_loads (json_text text) = Some v -> (forall d, v <> PDict d) ->
     exists e, parsed = Raise e) /\
  (forall d : dict, json_loads (json_text text) = Some (PDict d) ->
     (forall t, d !! "action" = Some t ->
        (forall s, s ∈ ACTION_TYPES -> t <> PStr s) ->
        parsed = Raise (InvalidActionType t)) /\
     (d !! "action" = Some (PStr "CLICK") -> d !! "grid" = None ->
        parsed = Raise ClickRequiresGrid) /\
     (forall s, s ∈ ["TYPE"; "SCROLL"; "AWAKE"] ->
        d !! "action" = Some (PStr s) -> d !! "value" = None ->
        parsed = Raise (RequiresValue (PStr s))) /\
     (forall v, d !! "action" = Some (PStr "SCROLL") -> d !! "value" = Some v ->
        v <> PStr "up" -> v <> PStr "down" ->
        parsed = Raise (InvalidScrollValue v)) /\
     (forall s, d !! "action" = Some (PStr s) -> s ∈ ACTION_TYPES ->
        (s = "CLICK" -> is_Some (d !! "grid")) ->
        (s ∈ ["TYPE"; "SCROLL"; "AWAKE"] -> is_Some (d !! "value")) ->
        (s = "SCROLL" ->
           d !! "value" = Some (PStr "up") \/ d !! "value" = Some (PStr "down")) ->
        parsed = OK d)) /\
  (forall txt t t' v,
     NoDup [InvalidJSON txt; InvalidActionType t; ClickRequiresGrid;
            RequiresValue t'; InvalidScrollValue v] /\
     Forall (fun e => is_ValueError e = true)
            [InvalidJSON txt; InvalidActionType t; ClickRequiresGrid;
             RequiresValue t'; InvalidScrollValue v]).
Proof.
  intros Hft Hne parsed. unfold parsed.
  rewrite (parse_response_text _ _ Hft Hne).
  split; [by intros ->|]. split.
  { intros v -> Hv. unfold validate_action.
    destruct v; try (eexists; reflexivity); try by destruct (Hv d).
    - simpl. destruct (str_contains "action" s); eexists; reflexivity.
    - simpl. destruct (existsb _ l); eexists; reflexivity. }
  split.
  { intros d ->. cbn [validate_action]. split; [|split; [|split; [|split]]].
    - intros t Ht Hno. unfold validate_dict. rewrite Ht.
      by rewrite (in_strs_false _ _ Hno).
    - intros Ha Hg. unfold validate_dict. by rewrite Ha, Hg.
    - intros s Hs Ha Hv. unfold validate_dict. rewrite Ha, Hv.
      assert (Hrec : in_strs (PStr s) ACTION_TYPES = true).
      { apply in_strs_PStr. elem_cases Hs; subst s; elem_closed. }
      rewrite Hrec, (proj2 (in_strs_PStr s _) Hs). cbn [negb].
      unfold py_eq_str. case_bool_decide as Hc; [|reflexivity].
      subst s. elem_cases Hs; discriminate.
    - intros v Ha Hv Hup Hdown. unfold validate_dict. rewrite Ha, Hv.
      rewrite (in_strs_false v ["up"; "down"]); [reflexivity|].
      intros s Hs ->. elem_cases Hs; by subst s.
    - intros s. apply validate_dict_accepts. }
  intros txt t t' v. split.
  - repeat (apply NoDup_cons; split; [elem_closed|]). apply NoDup_nil_2.
  - repeat constructor.
Qed.

End Validation.

Lemma parse_response_validation_witness :
  first_text (text_response "{}") = Some "{}" /\ "{}" <> "" /\
  _parse_response (fun _ => Some (PDict scroll_left)) (text_response "{}")
    = Raise (InvalidScrollValue (PStr "left")).
Proof.
  split; [reflexivity|]. split; [discriminate|].
  destruct (parse_response_validation (fun _ => Some (PDict scroll_left))
              (text_response "{}") "{}" eq_refl ltac:(discriminate))
    as (_ & _ & H & _).
  destruct (H scroll_left eq_refl) as (_ & _ & _ & Hscroll & _).
  apply Hscroll; [reflexivity | reflexivity | discriminate | discriminate].
Defined.

(** ** The request context *)



Lemma contains_app_r needle hay post : contains needle hay -> contains needle (hay +:+ post).
Proof.
  intros (p & q & ->). exists p, (q +:+ post). by rewrite !str_app_assoc.
Qed.


Lemma last_n_app {A} n (l k : list A) : n = length k -> last_n n (l ++ k) = k.
Proof.
  intros ->. unfold last_n. rewrite length_app.
  replace (length l + length k - length k)%nat with (length l) by lia.
  apply drop_app_length.
Qed.




Lemma py_set_go_length_le l acc :
  (length acc <= length (py_set_go l acc))%nat.
Proof.
  revert acc. induction l as [|x l IH]; intros acc; simpl; [lia|].
  destruct (existsb (py_eq x) acc); [apply IH|].
  etrans; [|apply IH]. rewrite length_app. simpl. lia.
Qed.




Section Request.
Variable repr_container : pyval -> string.

Local Abbreviation build := (_build_user_message repr_container).









End Request.

(** ** The step loop *)

Lemma py_eq_str_true t s : py_eq_str t s = true <-> t = PStr s.
Proof.
  destruct t; simpl; try (split; [discriminate|discriminate]).
  rewrite bool_decide_eq_true. split; congruence.
Qed.

Section Loop.
Context {F : Type} {PF : PyFloat F} {world image : Type}.
Variable env : Collaborators world image.
Variable self : Agent F.

Lemma M_bind_OK {A B} (m : M world A) (f : A -> M world B) w b w' :
  (m ≫= f) w = (OK b, w') ->
  exists a w1, m w = (OK a, w1) /\ f a w1 = (OK b, w').
Proof.
  unfold mbind, M_bind. destruct (m w) as [[a|e] w1]; [|discriminate].
  intros H. by exists a, w1.
Qed.

Lemma lift_OK {A} (r : result A) (w w' : world) a :
  lift r w = (OK a, w') -> r = OK a /\ w' = w.
Proof. unfold lift. by intros [= -> ->]. Qed.

Lemma mret_OK {A} (a b : A) (w w' : world) :
  (mret a : M world A) w = (OK b, w') -> b = a /\ w' = w.
Proof. unfold mret, M_ret. by intros [= -> ->]. Qed.

(** The entry a step records carries the action tag the step read. *)
Lemma run_step_entry task save history w t entry w' :
  run_step env self task save history w = (OK (t, entry), w') ->
  entry !! "action" = Some t.
Proof.
  unfold run_step. intros H.
  apply M_bind_OK in H as (path & w1 & _ & H).
  apply M_bind_OK in H as ([img b64] & w2 & _ & H).
  apply M_bind_OK in H as (oaction & w3 & _ & H).
  apply M_bind_OK in H as (action & w4 & _ & H).
  apply M_bind_OK in H as ([] & w5 & _ & H).
  apply M_bind_OK in H as (t' & w6 & Ht & H).
  apply M_bind_OK in H as (marked & w7 & _ & H).
  apply M_bind_OK in H as ([] & w8 & _ & H).
  apply mret_OK in H as [[= -> ->] _].
  apply lift_OK in Ht as [Ht _]. unfold getitem in Ht.
  destruct (action !! "action") as [v|] eqn:Hv; [|discriminate].
  injection Ht as ->.
  destruct marked as [m|]; [|done]. case_bool_decide; [done|].
  by rewrite lookup_insert_ne.
Qed.

Lemma Forall_snoc_nc (h : list dict) e :
  Forall not_complete h -> not_complete e -> Forall not_complete (h ++ [e]).
Proof. intros. apply Forall_app. by split; [|constructor]. Qed.

(** What the loop returns, entered at [step] with the history [h] free of
    COMPLETE actions. *)
Lemma run_loop_spec task save fuel : forall step sc h w e sc' h' w',
  run_loop env self task save fuel step sc h w = ((e, sc', h'), w') ->
  sc = step - 1 -> Forall not_complete h ->
  step - 1 <= sc' <= step - 1 + Z.of_nat fuel /\
  match e with
  | Completed =>
      Z.of_nat (length h') = Z.of_nat (length h) + (sc' - (step - 1)) /\
      exists older entry, h' = (older ++ [entry])%list /\
        Forall not_complete older /\ is_complete entry
  | MaxStepsReached =>
      sc' = step - 1 + Z.of_nat fuel /\
      Z.of_nat (length h') = Z.of_nat (length h) + Z.of_nat fuel /\
      Forall not_complete h'
  | Interrupted | Failed _ =>
      Z.of_nat (length h') = Z.of_nat (length h) + (sc' - step) /\
      step <= sc' /\ Forall not_complete h'
  end.
Proof.
  induction fuel as [|fuel IH]; intros step sc h w e sc' h' w' H Hsc Hh.
  - simpl in H. injection H as <- <- <- <-. subst sc. split; [lia|].
    split; [lia|]. split; [lia|done].
  - cbn [run_loop] in H.
    destruct (run_step env self task save h w) as [[[t entry]|x] w1] eqn:Hstep.
    + apply run_step_entry in Hstep.
      destruct (py_eq_str t "COMPLETE") eqn:Ht.
      * injection H as <- <- <- <-. split; [lia|]. split.
        { rewrite length_app. simpl. lia. }
        exists h, entry. split; [done|]. split; [done|].
        apply py_eq_str_true in Ht. by subst t.
      * apply IH in H; [|lia|].
        2:{ apply Forall_snoc_nc; [done|]. by exists t. }
        destruct H as [Hb He]. split; [lia|].
        rewrite length_app in He. cbn [length] in He.
        destruct e.
        -- destruct He as (Hlen & older & en & Hh' & Ho & Hc).
           split; [lia|]. by exists older, en.
        -- destruct He as (Hsc' & Hlen & Hf). split; [lia|]. split; [lia|done].
        -- destruct He as (Hlen & Hle & Hf). split; [lia|]. split; [lia|done].
        -- destruct He as (Hlen & Hle & Hf). split; [lia|]. split; [lia|done].
    + injection H as <- <- <- <-. split; [lia|].
      destruct (is_Exception x); (split; [lia|]); (split; [lia|done]).
Qed.

(** The loop only appends to the history. *)
Lemma run_loop_append_only task save fuel : forall step sc h w e sc' h' w',
  run_loop env self task save fuel step sc h w = ((e, sc', h'), w') ->
  h `prefix_of` h'.
Proof.
  induction fuel as [|fuel IH]; intros step sc h w e sc' h' w' H.
  - simpl in H. by injection H as <- <- <- <-.
  - cbn [run_loop] in H.
    destruct (run_step env self task save h w) as [[[t entry]|x] w1].
    + destruct (py_eq_str t "COMPLETE").
      * injection H as <- <- <- <-. by apply prefix_app_r.
      * apply IH in H. etrans; [|exact H]. by apply prefix_app_r.
    + by injection H as <- <- <- <-.
Qed.

Lemma is_success_iff (h : list dict) :
  Forall (fun e => is_Some (e !! "action")) h ->
  exists ok, is_success h = OK ok /\
    (ok = true <-> exists e, last h = Some e /\ is_complete e).
Proof.
  intros Hh. unfold is_success. destruct (last h) as [e|] eqn:Hl.
  - assert (He : is_Some (e !! "action")).
    { eapply Forall_forall in Hh; [done|]. by apply last_Some_elem_of. }
    destruct He as [t Ht]. unfold getitem. rewrite Ht. cbn [mbind result_bind].
    eexists. split; [done|]. rewrite py_eq_str_true. unfold is_complete. split.
    + intros ->. by exists e.
    + intros (e' & [= <-] & He'). rewrite Ht in He'. by injection He'.
  - exists false. split; [done|]. split; [done|]. by intros (? & ? & _).
Qed.

Lemma not_complete_is_Some e : not_complete e -> is_Some (e !! "action").
Proof. intros (t & -> & _). by eexists. Qed.

Lemma not_complete_not e : not_complete e -> ~ is_complete e.
Proof.
  intros (t & Ht & Hne) Hc. unfold is_complete in Hc. rewrite Ht in Hc.
  injection Hc as ->. assert (py_eq_str (PStr "COMPLETE") "COMPLETE" = true)
    by (by apply py_eq_str_true). congruence.
Qed.

(** C5: [run_task] always returns a result.  It executes at most [max_steps]
    steps (the argument, or the configured default when the argument is
    missing or 0) and records at most one history entry per step.  Its
    success flag is true exactly when the history is not empty and its last
    entry is a COMPLETE action, which is exactly when the loop was left after
    a COMPLETE action; a run that exhausts its steps has executed [max_steps]
    steps, holds no COMPLETE action in its history and is not a success. *)
Theorem run_task_steps_and_success (task : string) (max_steps : option Z)
    (save_screenshots : option bool) (w : world) :
  exists r w',
    run_task env self task max_steps save_screenshots w = (OK r, w') /\
    0 <= steps r <= Z.max 0 (max_steps_or_default self max_steps) /\
    Z.of_nat (length (history r)) <= steps r /\
    (success r = true <->
       exists e, last (history r) = Some e /\ is_complete e) /\
    (success r = true <-> ended r = Completed) /\
    (ended r = MaxStepsReached ->
       steps r = Z.max 0 (max_steps_or_default self max_steps) /\
       success r = false /\
       Forall (fun e => ~ is_complete e) (history r)).
Proof.
  unfold run_task.
  set (n := max_steps_or_default self max_steps).
  set (save := default (config_save_debug_images self) save_screenshots).
  destruct (run_loop env self task save (Z.to_nat n) 1 0 [] w)
    as [[[e sc] h] w'] eqn:Hloop.
  apply run_loop_spec in Hloop as [Hb He]; [|done|constructor].
  cbn [length] in He.
  assert (Hact : Forall (fun x => is_Some (x !! "action")) h).
  { destruct e.
    - destruct He as (_ & older & entry & -> & Ho & Hc).
      apply Forall_app. split.
      + eapply Forall_impl; [done|]. apply not_complete_is_Some.
      + constructor; [by eexists|done].
    - destruct He as (_ & _ & Hh). eapply Forall_impl; [done|]. apply not_complete_is_Some.
    - destruct He as (_ & _ & Hh). eapply Forall_impl; [done|]. apply not_complete_is_Some.
    - destruct He as (_ & _ & Hh). eapply Forall_impl; [done|]. apply not_complete_is_Some. }
  destruct (is_success_iff h Hact) as (ok & Hok & Hiff). rewrite Hok.
  cbn [mbind result_bind]. eexists _, _. split; [reflexivity|].
  cbn [steps history success ended].
  assert (Hnc : Forall not_complete h -> ok = false).
  { intros Hh. destruct ok; [|done]. destruct (proj1 Hiff eq_refl) as (x & Hl & Hx).
    exfalso. eapply not_complete_not; [|done].
    eapply Forall_forall in Hh; [done|]. by apply last_Some_elem_of. }
  split; [lia|]. split.
  { destruct e; destruct He as (? & ? & ?); lia. }
  split; [done|]. split.
  - destruct e.
    + split; [done|]. intros _. apply Hiff.
      destruct He as (_ & older & entry & -> & _ & Hc). exists entry.
      split; [apply last_snoc|done].
    + destruct He as (_ & _ & Hh). rewrite (Hnc Hh). split; discriminate.
    + destruct He as (_ & _ & Hh). rewrite (Hnc Hh). split; discriminate.
    + destruct He as (_ & _ & Hh). rewrite (Hnc Hh). split; discriminate.
  - intros ->. destruct He as (Hsc & _ & Hh). split; [lia|]. split; [by apply Hnc|].
    eapply Forall_impl; [exact Hh|]. apply not_complete_not.
Qed.

(** ** An empty grid label *)

Lemma grid_to_pixel_empty (cfg : GridConfig F) :
  grid_to_pixel cfg "" = Raise (InvalidGridFormat "").
Proof. reflexivity. Qed.

(** C10: a decoded response [{"action": "CLICK", "grid": ""}] passes
    [_parse_response] and is returned as it is; [grid_to_pixel] rejects the
    empty label with the invalid-format error, so [execute_action] raises
    that error, after its two attempts and without a command sent to the
    device. *)
Theorem click_empty_grid_deferred (response : list resp_block) (text : string)
    (w : world) :
  first_text response = Some text -> text <> "" ->
  json_loads env (json_text text) = Some (PDict click_empty_grid) ->
  _parse_response (json_loads env) response = OK click_empty_grid /\
  grid_to_pixel (grid_converter self) "" = Raise (InvalidGridFormat "") /\
  execute_action env self click_empty_grid true w = (Raise (InvalidGridFormat ""), w).
Proof.
  intros Hft Hne Hjson. split; [|split].
  - unfold _parse_response. rewrite Hft. destruct text; [done|].
    rewrite Hjson. reflexivity.
  - apply grid_to_pixel_empty.
  - reflexivity.
Qed.

End Loop.

Lemma click_empty_grid_deferred_witness :
  first_text (text_response "{}") = Some "{}" /\ "{}" <> "" /\
  json_loads (env_const (PDict click_empty_grid)) (json_text "{}")
    = Some (PDict click_empty_grid) /\
  _parse_response (json_loads (env_const (PDict click_empty_grid)))
                  (text_response "{}") = OK click_empty_grid /\
  execute_action (env_const (PDict click_empty_grid)) agent_1080x2400
                 click_empty_grid true tt
    = (Raise (InvalidGridFormat ""), tt).
Proof.
  split; [reflexivity|]. split; [discriminate|]. split; [reflexivity|].
  destruct (click_empty_grid_deferred (env_const (PDict click_empty_grid))
              agent_1080x2400 (text_response "{}") "{}" tt
              eq_refl ltac:(discriminate) eq_refl) as (Hparse & _ & Hexec).
  split; [exact Hparse | exact Hexec].
Defined.

(** ** Sample histories and runs *)

Lemma click_E5_scalar : scalar_fields click_E5.
Proof. split; reflexivity. Qed.



(** A model that answers COMPLETE ends the run at the first step with
    success; a model that keeps clicking E5 exhausts the three steps it is
    given, each entry of the history carrying the marked screenshot of its
    step, and the run is not a success. *)
Lemma run_task_complete_example :
  run_task (env_const (PDict complete_action)) agent_1080x2400
           "Open the app" (Some 3) None tt
  = (OK {| success := true; steps := 1; history := [complete_action];
           ended := Completed |}, tt).
Proof. vm_compute. reflexivity. Qed.

Lemma run_task_max_steps_example :
  run_task (env_const (PDict click_E5)) agent_1080x2400
           "Open the app" (Some 3) None tt
  = (OK {| success := false; steps := 3;
           history := replicate 3 (<[marked_key := PStr "MARK"]> click_E5);
           ended := MaxStepsReached |}, tt).
Proof. vm_compute. reflexivity. Qed.

(** * Further properties *)

(** ** The normal form of a label *)

Lemma is_space_upper a : is_space (upper_ascii a) = is_space a.
Proof. destruct a as [[] [] [] [] [] [] [] []]; reflexivity. Qed.

Lemma upper_ascii_idem a : upper_ascii (upper_ascii a) = upper_ascii a.
Proof. destruct a as [[] [] [] [] [] [] [] []]; reflexivity. Qed.

Lemma upper_idem s : upper (upper s) = upper s.
Proof. induction s as [|a s IH]; simpl; [done|]. by rewrite upper_ascii_idem, IH. Qed.

Lemma lstrip_upper s : lstrip (upper s) = upper (lstrip s).
Proof.
  induction s as [|a s IH]; simpl; [done|].
  rewrite is_space_upper. by destruct (is_space a).
Qed.

Lemma upper_rev_app s t :
  upper (String.rev_app s t) = String.rev_app (upper s) (upper t).
Proof. revert t. induction s as [|a s IH]; intros t; simpl; [done|]. by rewrite IH. Qed.

Lemma upper_rev s : upper (String.rev s) = String.rev (upper s).
Proof. apply upper_rev_app. Qed.

Lemma strip_upper s : strip (upper s) = upper (strip s).
Proof.
  unfold strip, rstrip.
  by rewrite lstrip_upper, <- upper_rev, lstrip_upper, upper_rev.
Qed.

Lemma rev_app_app s t : String.rev_app s t = String.rev s +:+ t.
Proof.
  unfold String.rev. change t with ("" +:+ t) at 1.
  generalize "" as acc. induction s as [|a s IH]; intros acc; simpl; [done|].
  by rewrite <- IH.
Qed.

Lemma rev_cons a s : String.rev (String a s) = String.rev s +:+ String a "".
Proof. unfold String.rev at 1. simpl. apply rev_app_app. Qed.

Lemma rev_app_distr s t : String.rev (s +:+ t) = String.rev t +:+ String.rev s.
Proof.
  induction s as [|a s IH].
  - by rewrite str_app_nil_r.
  - change (String a s +:+ t) with (String a (s +:+ t)).
    by rewrite !rev_cons, IH, str_app_assoc.
Qed.

Lemma lstrip_first s : first_not_space (lstrip s) = true.
Proof.
  induction s as [|a s IH]; simpl; [done|].
  destruct (is_space a) eqn:E; [done|]. simpl. by rewrite E.
Qed.

Lemma lstrip_id s : first_not_space s = true -> lstrip s = s.
Proof. destruct s as [|a s]; simpl; [done|]. by destruct (is_space a). Qed.

Lemma lstrip_split s :
  exists ws, all_chars is_space ws = true /\ s = ws +:+ lstrip s.
Proof.
  induction s as [|a s (ws & Hws & IH)]; simpl.
  - by exists "".
  - destruct (is_space a) eqn:E.
    + exists (String a ws). simpl. rewrite E, Hws. split; [done|].
      change (String a ws +:+ lstrip s) with (String a (ws +:+ lstrip s)).
      by rewrite <- IH.
    + by exists "".
Qed.

Lemma rstrip_split s :
  exists ws, all_chars is_space ws = true /\ s = rstrip s +:+ ws.
Proof.
  destruct (lstrip_split (String.rev s)) as (ws & Hws & Hs).
  exists (String.rev ws). split.
  - unfold String.rev. by apply all_chars_rev_app.
  - unfold rstrip. rewrite <- rev_app_distr, <- Hs. by rewrite rev_involutive.
Qed.

Lemma rstrip_first s : first_not_space s = true -> first_not_space (rstrip s) = true.
Proof.
  intros H. destruct (rstrip_split s) as (ws & _ & Hs).
  destruct (rstrip s) as [|a r]; [done|].
  rewrite Hs in H. exact H.
Qed.

Lemma rstrip_id s : first_not_space (String.rev s) = true -> rstrip s = s.
Proof. intros H. unfold rstrip. by rewrite lstrip_id, rev_involutive. Qed.

Lemma rstrip_last s : first_not_space (String.rev (rstrip s)) = true.
Proof. unfold rstrip. rewrite rev_involutive. apply lstrip_first. Qed.

Lemma strip_id s :
  first_not_space s = true -> first_not_space (String.rev s) = true -> strip s = s.
Proof. intros H1 H2. unfold strip. by rewrite lstrip_id, rstrip_id. Qed.

Lemma strip_idem s : strip (strip s) = strip s.
Proof.
  apply strip_id.
  - unfold strip. apply rstrip_first, lstrip_first.
  - unfold strip. apply rstrip_last.
Qed.

Lemma normalise_idem s : upper (strip (upper (strip s))) = upper (strip s).
Proof. by rewrite strip_upper, strip_idem, upper_idem. Qed.

Section Normalised.
Context {F : Type} {PF : PyFloat F} (cfg : GridConfig F).

(** X1: [grid_to_pixel] and [get_cell_bounds] read a label without regard to
    case and to white space around it: the result is the same on the label,
    on its upper-case form and on its stripped form, and the second
    normalisation in [_single_grid_to_pixel] changes nothing. *)
Theorem grid_to_pixel_normalised (s : string) :
  grid_to_pixel cfg s = _single_grid_to_pixel cfg s /\
  grid_to_pixel cfg (upper s) = grid_to_pixel cfg s /\
  grid_to_pixel cfg (strip s) = grid_to_pixel cfg s /\
  get_cell_bounds cfg (upper s) = get_cell_bounds cfg s /\
  get_cell_bounds cfg (strip s) = get_cell_bounds cfg s.
Proof.
  assert (Hu : upper (strip (upper s)) = upper (strip s))
    by (by rewrite strip_upper, upper_idem).
  assert (Hs : upper (strip (strip s)) = upper (strip s))
    by (by rewrite strip_idem).
  split; [|split; [|split; [|split]]].
  - unfold grid_to_pixel, _single_grid_to_pixel. by rewrite normalise_idem.
  - unfold grid_to_pixel. by rewrite Hu.
  - unfold grid_to_pixel. by rewrite Hs.
  - unfold get_cell_bounds. by rewrite Hu.
  - unfold get_cell_bounds. by rewrite Hs.
Qed.
End Normalised.

(** ** Accepted labels *)

Section Inversion.
Context {F : Type} {PF : PyFloat F} (cfg : GridConfig F).



End Inversion.

Section ExactOnScreen.
Local Open Scope Q_scope.




End ExactOnScreen.





Section ExactFloors.
Local Open Scope Q_scope.



End ExactFloors.

Section ExactBounds.
Variable cfg : GridConfig Q.
Hypothesis Hw : (0 < cell_width cfg)%Q.
Hypothesis Hh : (0 < cell_height cfg)%Q.

End ExactBounds.


Section SnapToCell.
Variable s : GridSpec.
Hypothesis Hcols : 1 <= grid_cols s <= 26.
Hypothesis Hrows : 1 <= grid_rows s.
Hypothesis HW : 1 <= screen_width s.
Hypothesis HH : 1 <= screen_height s.



End SnapToCell.

(** ** The text handed to the JSON decoder *)

Lemma str_app_cons a s t : String a s +:+ t = String a (s +:+ t).
Proof. reflexivity. Qed.

Lemma all_chars_app p s t :
  all_chars p (s +:+ t) = all_chars p s && all_chars p t.
Proof.
  induction s as [|a s IH]; [done|].
  rewrite str_app_cons. simpl. by rewrite IH, andb_assoc.
Qed.

Lemma split_lines_go_nonempty cur s : split_lines_go cur s <> [].
Proof.
  revert cur. induction s as [|a s IH]; intros cur; simpl; [done|].
  destruct (Ascii.eqb a "010"); [done|apply IH].
Qed.

Lemma join_cons sep x l : l <> [] -> join sep (x :: l) = x +:+ sep +:+ join sep l.
Proof. by destruct l. Qed.

(** [chr(10).join(s.split(chr(10))) == s] *)
Lemma join_split_lines_go cur s :
  join nl (split_lines_go cur s) = String.rev cur +:+ s.
Proof.
  revert cur. induction s as [|a s IH]; intros cur; simpl.
  - by rewrite str_app_nil_r.
  - destruct (Ascii.eqb a "010") eqn:E.
    + apply Ascii.eqb_eq in E as ->.
      rewrite join_cons by apply split_lines_go_nonempty.
      rewrite IH. reflexivity.
    + rewrite IH, rev_cons, str_app_assoc. reflexivity.
Qed.

Lemma join_split_lines s : join nl (split_lines s) = s.
Proof. apply join_split_lines_go. Qed.

Lemma split_lines_go_app cur b c :
  split_lines_go cur (b +:+ nl +:+ c) = (split_lines_go cur b ++ split_lines c)%list.
Proof.
  revert cur. induction b as [|a b IH]; intros cur.
  - reflexivity.
  - rewrite str_app_cons. simpl. destruct (Ascii.eqb a "010"); [|apply IH].
    rewrite IH. reflexivity.
Qed.

Lemma split_lines_go_line cur s :
  all_chars not_newline s = true -> split_lines_go cur s = [String.rev cur +:+ s].
Proof.
  revert cur. induction s as [|a s IH]; intros cur; simpl.
  - by rewrite str_app_nil_r.
  - unfold not_newline at 1. destruct (Ascii.eqb a "010"); [done|]. simpl.
    intros H. rewrite IH by done. by rewrite rev_cons, str_app_assoc.
Qed.

Lemma slice_1_m1_middle {A} (x y : A) (l : list A) :
  slice_1_m1 (x :: l ++ [y]) = l.
Proof.
  unfold slice_1_m1. cbn [drop]. rewrite drop_0.
  cbn [length]. rewrite length_app. cbn [length].
  replace (S (length l + 1) - 2)%nat with (length l) by lia.
  by rewrite take_app_length.
Qed.

Lemma lstrip_spaces ws s : all_chars is_space ws = true -> lstrip (ws +:+ s) = lstrip s.
Proof.
  induction ws as [|a ws IH]; [done|]. rewrite str_app_cons. simpl.
  destruct (is_space a); [|done]. simpl. exact IH.
Qed.

Lemma all_chars_rev p s : all_chars p (String.rev s) = all_chars p s.
Proof.
  induction s as [|a s IH]; [done|].
  rewrite rev_cons, all_chars_app, IH. simpl.
  rewrite andb_true_r. apply andb_comm.
Qed.

Lemma lstrip_all_spaces ws : all_chars is_space ws = true -> lstrip ws = "".
Proof.
  induction ws as [|a ws IH]; [done|]. simpl. destruct (is_space a); [|done].
  exact IH.
Qed.

(** White space around a text that neither starts nor ends with white space
    is what [strip] removes. *)
Lemma strip_spaces ws1 t ws2 :
  all_chars is_space ws1 = true -> all_chars is_space ws2 = true ->
  first_not_space t = true -> first_not_space (String.rev t) = true ->
  strip (ws1 +:+ t +:+ ws2) = t.
Proof.
  intros H1 H2 Ht Hr. unfold strip. rewrite lstrip_spaces by done.
  destruct t as [|a t].
  - change ("" +:+ ws2) with ws2. by rewrite lstrip_all_spaces.
  - rewrite str_app_cons. simpl in Ht. cbn [lstrip].
    destruct (is_space a); [done|].
    unfold rstrip. rewrite <- str_app_cons, rev_app_distr.
    rewrite lstrip_spaces by (by rewrite all_chars_rev).
    rewrite lstrip_id by done. apply rev_involutive.
Qed.

Lemma first_not_space_rev_snoc s a :
  first_not_space (String.rev (s +:+ String a "")) = negb (is_space a).
Proof. by rewrite rev_app_distr. Qed.

Lemma startswith_app p t : startswith p (p +:+ t) = true.
Proof.
  unfold startswith. induction p as [|a p IH].
  - by destruct t.
  - rewrite str_app_cons. simpl. by destruct (ascii_dec a a).
Qed.

Lemma split_lines_fenced tag body :
  all_chars not_newline tag = true ->
  split_lines (fence +:+ tag +:+ nl +:+ body +:+ nl +:+ fence)
  = ((fence +:+ tag) :: split_lines body ++ [fence])%list.
Proof.
  intros Htag. unfold split_lines.
  rewrite <- (str_app_assoc fence tag).
  rewrite split_lines_go_app, split_lines_go_line.
  2:{ rewrite all_chars_app, Htag. reflexivity. }
  unfold split_lines. rewrite split_lines_go_app. reflexivity.
Qed.

(** X6: of a text that is a fenced code block, with any language tag after
    the opening fence and any white space around the block, [json_text]
    keeps the body between the two fence lines, character for character. *)
Theorem json_text_unwraps_fence (ws1 tag body ws2 : string) :
  all_chars is_space ws1 = true -> all_chars is_space ws2 = true ->
  all_chars not_newline tag = true ->
  json_text (ws1 +:+ (fence +:+ tag +:+ nl +:+ body +:+ nl +:+ fence) +:+ ws2) = body.
Proof.
  intros H1 H2 Htag. unfold json_text.
  rewrite strip_spaces; [|done|done|reflexivity|].
  - rewrite startswith_app.
    rewrite split_lines_fenced by done.
    rewrite slice_1_m1_middle. apply join_split_lines.
  - replace (fence +:+ tag +:+ nl +:+ body +:+ nl +:+ fence)
      with ((fence +:+ tag +:+ nl +:+ body +:+ nl +:+ "``") +:+ "`").
    + by rewrite first_not_space_rev_snoc.
    + rewrite !str_app_assoc. reflexivity.
Qed.

Lemma json_text_unwraps_fence_witness :
  all_chars is_space " " = true /\ all_chars is_space nl = true /\
  all_chars not_newline "json" = true /\
  json_text (" " +:+ (fence +:+ "json" +:+ nl +:+ "{}" +:+ nl +:+ fence) +:+ nl) = "{}".
Proof.
  split; [reflexivity|]. split; [reflexivity|]. split; [reflexivity|].
  apply (json_text_unwraps_fence " " "json" "{}" nl); reflexivity.
Defined.

(** ** Errors of [_parse_response] *)

Section ParseErrors.
Variable json_loads : string -> option pyval.

Lemma validate_dict_returns (d d' : dict) : validate_dict d = OK d' -> d' = d.
Proof.
  unfold validate_dict. intros H.
  repeat (match type of H with
          | context [match ?x with _ => _ end] => destruct x
          end; try discriminate); by injection H.
Qed.


Lemma validate_action_OK v d : validate_action v = OK d ->
  v = PDict d /\ validate_dict d = OK d.
Proof.
  destruct v as [|b|z|s|l|d0]; simpl; try discriminate.
  - destruct (negb (str_contains _ s)); discriminate.
  - destruct (negb (existsb _ l)); discriminate.
  - intros H. pose proof (validate_dict_returns _ _ H) as ->. done.
Qed.



Lemma parse_response_OK response d :
  _parse_response json_loads response = OK d -> validate_dict d = OK d.
Proof.
  unfold _parse_response.
  destruct (first_text response) as [[|a text]|]; try discriminate.
  destruct (json_loads _) as [v|]; [|discriminate].
  intros H. by apply validate_action_OK in H as [_ ?].
Qed.
End ParseErrors.


Section GetAction.
Context {world image : Type}.
Variable env : Collaborators world image.

Lemma try_except_inv {A} (m : M world A) h w r w' :
  try_except m h w = (r, w') ->
  (exists a, m w = (OK a, w') /\ r = OK a) \/
  (exists e, m w = (Raise e, w') /\ is_Exception e = false /\ r = Raise e) \/
  (exists e w1, m w = (Raise e, w1) /\ is_Exception e = true /\ h e w1 = (r, w')).
Proof.
  unfold try_except. destruct (m w) as [[a|e] w1].
  - intros [= <- <-]. left. by exists a.
  - destruct (is_Exception e) eqn:E.
    + intros H. right. right. by exists e, w1.
    + intros [= <- <-]. right. left. by exists e.
Qed.

Lemma get_action_attempts_outcomes content max_retries fuel : forall attempt w r w',
  get_action_attempts env content max_retries fuel attempt w = (r, w') ->
  attempt + Z.of_nat fuel = max_retries -> (0 < fuel)%nat ->
  match r with
  | OK (Some a) => validate_dict a = OK a
  | OK None => False
  | Raise e =>
      (exists cause, e = ApiCallFailed max_retries cause /\ is_Exception cause = true) \/
      is_Exception e = false
  end.
Proof.
  induction fuel as [|fuel IH]; intros attempt w r w' H Hsum Hpos; [lia|].
  cbn [get_action_attempts] in H.
  apply try_except_inv in H as [(a & Hm & ->)|[(e & Hm & He & ->)|(e & w1 & Hm & He & Hh)]].
  - apply M_bind_OK in Hm as (resp & w1 & _ & Hm).
    apply M_bind_OK in Hm as (act & w2 & Hp & Hm).
    apply lift_OK in Hp as [Hp ->]. apply mret_OK in Hm as [-> _].
    by eapply parse_response_OK.
  - by right.
  - destruct (attempt <? max_retries - 1) eqn:Hlt.
    + apply Z.ltb_lt in Hlt. eapply IH; [exact Hh|lia|lia].
    + unfold lift in Hh. injection Hh as <- <-. left. by exists e.
Qed.

(** X8: [get_action] returns an action only if it passes the checks of
    [_parse_response]; it returns [None] only when [max_retries] is not
    positive, and then without a request; what it raises is the error of
    building the request, raised before any request is sent, or the failure
    of the last attempt wrapped in the message of [max_retries] attempts,
    or an exception that [except Exception] does not catch. *)
Theorem get_action_outcomes (task grid_image_b64 : string) (history : list dict)
    (max_retries : Z) (w : world) :
  match get_action env task grid_image_b64 history max_retries w with
  | (OK (Some a), _) => validate_dict a = OK a
  | (OK None, w') => max_retries <= 0 /\ w' = w
  | (Raise e, w') =>
      (request_content (repr_container env) task grid_image_b64 history = Raise e /\
       w' = w) \/
      (exists cause, e = ApiCallFailed max_retries cause /\ is_Exception cause = true) \/
      is_Exception e = false
  end.
Proof.
  unfold get_action.
  destruct (request_content _ task grid_image_b64 history) as [content|e] eqn:Hc.
  2:{ cbn. by left. }
  change ((lift (OK content) ≫= _) w)
    with (get_action_attempts env content max_retries (Z.to_nat max_retries) 0 w).
  destruct (Z.to_nat max_retries) as [|n] eqn:Hn.
  - cbn. split; [lia|done].
  - destruct (get_action_attempts env content max_retries (S n) 0 w) as [r w'] eqn:H.
    apply get_action_attempts_outcomes in H; [|lia..].
    destruct r as [[a|]|e]; [done|done|]. by right.
Qed.
End GetAction.

Section NoFalseAlarm.
Variable repr_container : pyval -> string.

Lemma len_set_two g1 g2 n :
  len_set [g1; g2] = OK n -> (n =? 1)%nat = true -> py_eq g2 g1 = true.
Proof.
  unfold len_set. destruct (forallb hashable [g1; g2]); [|discriminate].
  cbn [py_set_go existsb app]. rewrite orb_false_r.
  destruct (py_eq g2 g1); [done|]. intros [= <-]. discriminate.
Qed.

Lemma len_set_three g1 g2 g3 n :
  len_set [g1; g2; g3] = OK n -> (n =? 1)%nat = true ->
  py_eq g2 g1 = true /\ py_eq g3 g1 = true.
Proof.
  unfold len_set. destruct (forallb hashable [g1; g2; g3]); [|discriminate].
  cbn [py_set_go existsb app]. rewrite !orb_false_r.
  destruct (py_eq g2 g1).
  - destruct (py_eq g3 g1); [done|]. intros [= <-]. discriminate.
  - destruct (py_eq g3 g1), (py_eq g3 g2); intros [= <-]; discriminate.
Qed.

(** X10: the warning about repeated clicks is given only when the last two
    entries are both CLICK actions on equal grid values that count as true,
    and it names that value; the warning about being stuck is given only
    when the last three entries have equal explanations. *)
Theorem stuck_warnings_only_on_repetition (older : list dict) (e1 e2 e3 : dict)
    (w : string) :
  (repeated_click repr_container (older ++ [e2; e3]) = OK (Some w) ->
     get e2 "action" PNone = PStr "CLICK" /\ get e3 "action" PNone = PStr "CLICK" /\
     py_eq (get e3 "grid" (PStr "")) (get e2 "grid" (PStr "")) = true /\
     truthy (get e2 "grid" (PStr "")) = true /\
     w = click_warning (py_str repr_container (get e2 "grid" (PStr "")))) /\
  (repeated_explain (older ++ [e1; e2; e3]) = OK (Some w) ->
     py_eq (get e2 "explain" (PStr "")) (get e1 "explain" (PStr "")) = true /\
     py_eq (get e3 "explain" (PStr "")) (get e1 "explain" (PStr "")) = true /\
     w = stuck_warning).
Proof.
  split.
  - unfold repeated_click. rewrite (last_n_app 2 older [e2; e3]) by done.
    cbn [forallb fmap list_fmap].
    destruct (py_eq_str (get e2 "action" PNone) "CLICK") eqn:H2; [|discriminate].
    destruct (py_eq_str (get e3 "action" PNone) "CLICK") eqn:H3; [|discriminate].
    cbn [andb].
    destruct (len_set _) as [n|] eqn:Hn; [|discriminate]. cbn [mbind result_bind].
    destruct (n =? 1)%nat eqn:H1; [|discriminate].
    destruct (truthy (get e2 "grid" (PStr ""))) eqn:Ht; [|discriminate].
    cbn [andb]. intros [= <-].
    apply py_eq_str_true in H2, H3.
    repeat split; try done. by eapply len_set_two.
  - unfold repeated_explain. rewrite (last_n_app 3 older [e1; e2; e3]) by done.
    cbn [fmap list_fmap].
    destruct (len_set _) as [n|] eqn:Hn; [|discriminate]. cbn [mbind result_bind].
    destruct (n =? 1)%nat eqn:H1; [|discriminate]. intros [= <-].
    destruct (len_set_three _ _ _ _ Hn H1). done.
Qed.
End NoFalseAlarm.

Lemma stuck_warnings_only_on_repetition_witness :
  repeated_click (fun _ => "") [click_E5; click_E5] = OK (Some (click_warning "E5")) /\
  py_eq (get click_E5 "grid" (PStr "")) (get click_E5 "grid" (PStr "")) = true.
Proof.
  split; [vm_compute; reflexivity|].
  destruct (stuck_warnings_only_on_repetition (fun _ => "") [] click_E5 click_E5 click_E5
              (click_warning "E5")) as [H _].
  destruct H as (_ & _ & H & _); [vm_compute; reflexivity|exact H].
Defined.

(** ** The commands sent to the device *)



Section Execute.
Context {F : Type} {PF : PyFloat F} {world image : Type}.
Variable env : Collaborators world image.
Variable self : Agent F.

Lemma perform_other (action : dict) (action_type : pyval) (w : world) :
  (forall s, s ∈ ["CLICK"; "TYPE"; "SCROLL"; "AWAKE"] -> action_type <> PStr s) ->
  perform env self action action_type w = (OK (), w).
Proof.
  intros H. unfold perform.
  assert (Hn : forall s, s ∈ ["CLICK"; "TYPE"; "SCROLL"; "AWAKE"] ->
             py_eq_str action_type s = false).
  { intros s Hs. destruct (py_eq_str action_type s) eqn:E; [|done].
    apply py_eq_str_true in E. by destruct (H s Hs). }
  rewrite !Hn by elem_closed. reflexivity.
Qed.

(** X11: [execute_action] without [retry_on_failure] is one attempt.  With
    it, an attempt that raises an [Exception] is followed by one more
    attempt, whose outcome is the outcome of the call; an attempt that
    succeeds, or is interrupted, is not repeated.  An action of a type that
    [execute_action] does not know succeeds without a command, and an action
    without a type raises [KeyError] without one. *)
Theorem execute_action_retries_once (action : dict) (w : world) :
  (action !! "action" = None ->
     forall retry, execute_action env self action retry w = (Raise PyKeyError, w)) /\
  (forall action_type, action !! "action" = Some action_type ->
     execute_action env self action false w = perform env self action action_type w /\
     execute_action env self action true w =
       match perform env self action action_type w with
       | (OK u, w1) => (OK u, w1)
       | (Raise e, w1) =>
           if is_Exception e then perform env self action action_type w1
           else (Raise e, w1)
       end /\
     ((forall s, s ∈ ["CLICK"; "TYPE"; "SCROLL"; "AWAKE"] -> action_type <> PStr s) ->
      forall retry, execute_action env self action retry w = (OK (), w))).
Proof.
  split.
  { intros Ha retry. unfold execute_action, getitem. by rewrite Ha. }
  intros action_type Ha.
  assert (H1 : execute_action env self action false w
               = perform env self action action_type w).
  { unfold execute_action, getitem. rewrite Ha.
    change ((lift (OK action_type) ≫= ?f) w) with (f action_type w).
    change (Z.to_nat 1) with 1%nat. cbn [execute_attempts]. unfold try_except.
    destruct (perform env self action action_type w) as [[u|e] w1]; [done|].
    cbn [Z.ltb Z.sub Z.add Z.compare Z.opp Z.pos_sub]. unfold lift.
    by destruct (is_Exception e). }
  assert (H2 : execute_action env self action true w =
               match perform env self action action_type w with
               | (OK u, w1) => (OK u, w1)
               | (Raise e, w1) =>
                   if is_Exception e then perform env self action action_type w1
                   else (Raise e, w1)
               end).
  { unfold execute_action, getitem. rewrite Ha.
    change ((lift (OK action_type) ≫= ?f) w) with (f action_type w).
    change (Z.to_nat 2) with 2%nat. cbn [execute_attempts]. unfold try_except.
    destruct (perform env self action action_type w) as [[u|e] w1]; [done|].
    destruct (is_Exception e); [|done].
    change (0 <? 2 - 1) with true. cbv beta iota.
    destruct (perform env self action action_type w1) as [[u|e'] w2]; [done|].
    change (0 + 1 <? 2 - 1) with false. cbv beta iota. unfold lift.
    by destruct (is_Exception e'). }
  split; [exact H1|]. split; [exact H2|].
  intros Hother [|].
  - rewrite H2, perform_other by done. reflexivity.
  - rewrite H1. by apply perform_other.
Qed.


End Execute.

Lemma execute_action_retries_once_witness :
  click_E5 !! "action" = Some (PStr "CLICK") /\
  execute_action (env_const PNone) agent_1080x2400 click_E5 false tt
    = perform (env_const PNone) agent_1080x2400 click_E5 (PStr "CLICK") tt.
Proof.
  split; [reflexivity|].
  destruct (execute_action_retries_once (env_const PNone) agent_1080x2400 click_E5 tt)
    as [_ H].
  destruct (H (PStr "CLICK")) as [H1 _]; [reflexivity|exact H1].
Defined.

Section PerformClick.
Context {F : Type} {PF : PyFloat F} {world image : Type}.
Variable env : Collaborators world image.
Variable self : Agent F.

End PerformClick.


Section ExactAgent.
Context {world image : Type}.
Variable env : Collaborators world image.
Variable self : Agent Q.
Hypothesis Hcfg : grid_config (PF := exact) (GRID_CONFIG self) = OK (grid_converter self).
Hypothesis HW : 1 <= screen_width (GRID_CONFIG self).
Hypothesis HH : 1 <= screen_height (GRID_CONFIG self).

End ExactAgent.


Section ScrollExact.
Local Open Scope Q_scope.

End ScrollExact.

Section ScrollAgent.
Context {world image : Type}.
Variable env : Collaborators world image.
Variable self : Agent Q.
Hypothesis HW : 1 <= screen_width (GRID_CONFIG self).
Hypothesis HH : 1 <= screen_height (GRID_CONFIG self).

End ScrollAgent.


(** The swipe of the 1080 x 2400 screen, in binary64. *)
Lemma scroll_1080x2400_binary64 :
  int_mul (PF := binary64) 2400 lit_0_7 = OK 1680 /\
  int_mul (PF := binary64) 2400 lit_0_3 = OK 720.
Proof. split; vm_compute; reflexivity. Qed.

(** ** The history of a run *)

Section History.
Context {F : Type} {PF : PyFloat F} {world image : Type}.
Variable env : Collaborators world image.
Variable self : Agent F.

Lemma get_action_Some task img history max_retries w a w' :
  get_action env task img history max_retries w = (OK (Some a), w') ->
  validate_dict a = OK a.
Proof.
  unfold get_action. intros H.
  apply M_bind_OK in H as (content & w1 & _ & H).
  destruct (Z.to_nat max_retries) as [|n] eqn:Hn; [discriminate|].
  by apply get_action_attempts_outcomes in H; [|lia..].
Qed.

Lemma validate_dict_insert (a : dict) k v :
  validate_dict a = OK a -> k <> "action" -> k <> "grid" -> k <> "value" ->
  validate_dict (<[k := v]> a) = OK (<[k := v]> a).
Proof.
  unfold validate_dict. intros H Ha Hg Hv.
  rewrite (lookup_insert_ne a k "action") by done.
  rewrite (lookup_insert_ne a k "grid") by done.
  rewrite (lookup_insert_ne a k "value") by done.
  repeat (match type of H with
          | context [match ?x with _ => _ end] => destruct x
          end; try discriminate); reflexivity.
Qed.

Lemma print_step_summary_click (action : dict) :
  _print_step_summary self action = OK () ->
  action !! "action" = Some (PStr "CLICK") -> is_Some (action !! "grid") ->
  exists g x y, action !! "grid" = Some (PStr g) /\
    grid_to_pixel (grid_converter self) g = OK (x, y).
Proof.
  unfold _print_step_summary, getitem. intros H Ha [v Hg]. rewrite Ha in H.
  cbn [mbind result_bind py_eq_str] in H.
  rewrite bool_decide_eq_true_2 in H by done.
  unfold get in H. rewrite Hg in H. cbn [from_option id] in H.
  destruct v; try discriminate. cbn [as_str mbind result_bind] in H.
  destruct (grid_to_pixel (grid_converter self) s) as [[x y]|e] eqn:Hp;
    [|discriminate].
  by exists s, x, y.
Qed.

Lemma validate_dict_click_grid (a : dict) :
  validate_dict a = OK a -> a !! "action" = Some (PStr "CLICK") ->
  is_Some (a !! "grid").
Proof.
  unfold validate_dict. intros H Ha. rewrite Ha in H.
  cbn [negb in_strs existsb ACTION_TYPES py_eq_str] in H.
  rewrite bool_decide_eq_true_2 in H by done. cbn [orb negb] in H.
  destruct (a !! "grid"); [by eexists|discriminate].
Qed.

Lemma run_step_well_formed task save history w t entry w' :
  run_step env self task save history w = (OK (t, entry), w') ->
  well_formed_entry (grid_converter self) entry.
Proof.
  unfold run_step. intros H.
  apply M_bind_OK in H as (path & w1 & _ & H).
  apply M_bind_OK in H as ([img b64] & w2 & _ & H).
  apply M_bind_OK in H as (oaction & w3 & Hget & H).
  apply M_bind_OK in H as (action & w4 & Hact & H).
  apply M_bind_OK in H as ([] & w5 & _ & H).
  apply M_bind_OK in H as (t' & w6 & Ht & H).
  apply M_bind_OK in H as (marked & w7 & _ & H).
  apply M_bind_OK in H as ([] & w8 & Hsum & H).
  apply mret_OK in H as [[= -> ->] _].
  apply lift_OK in Hact as [Hact _]. destruct oaction as [a|]; [|discriminate].
  injection Hact as ->. apply get_action_Some in Hget.
  apply lift_OK in Hsum as [Hsum _].
  assert (Hwf : well_formed_entry (grid_converter self) action).
  { split; [done|]. intros Ha. apply print_step_summary_click; [done..|].
    by apply validate_dict_click_grid. }
  destruct marked as [m|]; [|done]. case_bool_decide; [done|].
  destruct Hwf as [Hv Hc]. split.
  - by apply validate_dict_insert.
  - rewrite !lookup_insert_ne by done. exact Hc.
Qed.

Lemma run_loop_well_formed task save fuel : forall step sc h w e sc' h' w',
  run_loop env self task save fuel step sc h w = ((e, sc', h'), w') ->
  Forall (well_formed_entry (grid_converter self)) h ->
  Forall (well_formed_entry (grid_converter self)) h'.
Proof.
  induction fuel as [|fuel IH]; intros step sc h w e sc' h' w' H Hh.
  - simpl in H. by injection H as <- <- <- <-.
  - cbn [run_loop] in H.
    destruct (run_step env self task save h w) as [[[t entry]|x] w1] eqn:Hstep.
    + apply run_step_well_formed in Hstep.
      assert (Forall (well_formed_entry (grid_converter self)) (h ++ [entry]))
        by (apply Forall_app; split; [done|by constructor]).
      destruct (py_eq_str t "COMPLETE").
      * by injection H as <- <- <- <-.
      * by eapply IH.
    + by injection H as <- <- <- <-.
Qed.

Lemma run_task_inv task max_steps save w r w' :
  run_task env self task max_steps save w = (OK r, w') ->
  exists sc,
    run_loop env self task (default (config_save_debug_images self) save)
      (Z.to_nat (max_steps_or_default self max_steps)) 1 0 [] w
    = ((ended r, sc, history r), w') /\ steps r = sc.
Proof.
  unfold run_task.
  destruct (run_loop _ _ _ _ _ _ _ _ _) as [[[e sc] h] w1].
  destruct (is_success h) as [ok|]; [|discriminate].
  cbn [mbind result_bind]. intros [= <- <-]. by exists sc.
Qed.

(** X15: every entry of the history [run_task] returns passes the checks of
    [_parse_response], with or without the marked screenshot added to it,
    and the grid field of every recorded CLICK is a string that
    [grid_to_pixel] accepts. *)
Theorem run_task_history_well_formed (task : string) (max_steps : option Z)
    (save_screenshots : option bool) (w w' : world) (r : run_result) :
  run_task env self task max_steps save_screenshots w = (OK r, w') ->
  Forall (well_formed_entry (grid_converter self)) (history r).
Proof.
  intros H. apply run_task_inv in H as (sc & H & _).
  eapply run_loop_well_formed; [exact H|constructor].
Qed.

End History.

Lemma run_task_history_well_formed_witness :
  Forall (well_formed_entry (exact_config spec_1080x2400))
         (replicate 3 (<[marked_key := PStr "MARK"]> click_E5)).
Proof.
  apply (run_task_history_well_formed (env_const (PDict click_E5)) agent_1080x2400
           "Open the app" (Some 3) None tt tt
           {| success := false; steps := 3;
              history := replicate 3 (<[marked_key := PStr "MARK"]> click_E5);
              ended := MaxStepsReached |}).
  vm_compute. reflexivity.
Defined.


(** ** The overlay of the grid *)

Lemma mapM_OK_lookup {A B} (f : A -> result B) l ys i x :
  mapM f l = OK ys -> l !! i = Some x ->
  exists y, ys !! i = Some y /\ f x = OK y.
Proof.
  revert ys i. induction l as [|a l IH]; intros ys i H Hi; [done|].
  cbn [mapM] in H. destruct (f a) as [b|] eqn:Hfa; [|discriminate].
  cbn [mbind result_bind] in H.
  destruct (mapM f l) as [k|] eqn:Hk; [|discriminate].
  cbn [mbind result_bind] in H. injection H as <-.
  destruct i as [|i].
  - injection Hi as <-. by exists b.
  - cbn in Hi. destruct (IH k i eq_refl Hi) as (y & Hy & Hf). by exists y.
Qed.

Lemma mapM_OK_Forall {A B} (f : A -> result B) (P : A -> Prop) (Q : B -> Prop) l ys :
  (forall x y, P x -> f x = OK y -> Q y) ->
  mapM f l = OK ys -> Forall P l -> Forall Q ys.
Proof.
  intros Hf. revert ys. induction l as [|a l IH]; intros ys H Hl.
  - cbn in H. injection H as <-. constructor.
  - cbn [mapM] in H. destruct (f a) as [b|] eqn:Hfa; [|discriminate].
    cbn [mbind result_bind] in H.
    destruct (mapM f l) as [k|] eqn:Hk; [|discriminate].
    cbn [mbind result_bind] in H. injection H as <-.
    apply Forall_cons in Hl as [Ha Hl]. constructor; [by eapply Hf|by apply IH].
Qed.


Section Lines.
Context {F : Type} {PF : PyFloat F}.
Variable ov : GridOverlay F.

(** X17: in any arithmetic, the grid lines [apply] draws are the edges
    [get_cell_bounds] reports: the bounds of the cell in column [c] and row
    [r] are the vertical lines number [c] and [c + 1] and the horizontal
    lines number [r - 1] and [r]. *)
Theorem grid_lines_are_cell_edges (xs ys : list Z) (c r : Z) :
  vertical_lines ov = OK xs -> horizontal_lines ov = OK ys ->
  0 <= c < cols (overlay_grid ov) -> cols (overlay_grid ov) <= 26 ->
  1 <= r <= rows (overlay_grid ov) ->
  exists left top right bottom,
    xs !! Z.to_nat c = Some left /\ xs !! Z.to_nat (c + 1) = Some right /\
    ys !! Z.to_nat (r - 1) = Some top /\ ys !! Z.to_nat r = Some bottom /\
    get_cell_bounds (overlay_grid ov) (label c r) = OK (left, top, right, bottom).
Proof.
  intros Hxs Hys Hc H26 Hr.
  assert (Hx : forall i, 0 <= i < cols (overlay_grid ov) + 1 ->
            exists v, xs !! Z.to_nat i = Some v /\
                      int_mul i (cell_width (overlay_grid ov)) = OK v).
  { intros i Hi.
    apply (mapM_OK_lookup (fun i => int_mul i (cell_width (overlay_grid ov)))
             _ xs (Z.to_nat i) i Hxs).
    apply lookup_seqZ. lia. }
  assert (Hy : forall i, 0 <= i < rows (overlay_grid ov) + 1 ->
            exists v, ys !! Z.to_nat i = Some v /\
                      int_mul i (cell_height (overlay_grid ov)) = OK v).
  { intros i Hi.
    apply (mapM_OK_lookup (fun i => int_mul i (cell_height (overlay_grid ov)))
             _ ys (Z.to_nat i) i Hys).
    apply lookup_seqZ. lia. }
  destruct (Hx c ltac:(lia)) as (left & Hl1 & Hl2).
  destruct (Hx (c + 1) ltac:(lia)) as (right & Hr1 & Hr2).
  destruct (Hy (r - 1) ltac:(lia)) as (top & Ht1 & Ht2).
  destruct (Hy r ltac:(lia)) as (bottom & Hb1 & Hb2).
  exists left, top, right, bottom. repeat (split; [done|]).
  rewrite get_cell_bounds_label by lia.
  by rewrite Hl2, Ht2, Hr2, Hb2.
Qed.
End Lines.

Lemma grid_lines_are_cell_edges_witness :
  exists xs ys,
    vertical_lines overlay_1080x2400 = OK xs /\
    horizontal_lines overlay_1080x2400 = OK ys /\
    xs !! 4%nat = Some 432 /\ xs !! 5%nat = Some 540 /\
    ys !! 4%nat = Some 480 /\ ys !! 5%nat = Some 600 /\
    get_cell_bounds (PF := binary64) cfg_108x120 "E5" = OK (432, 480, 540, 600).
Proof.
  destruct (vertical_lines overlay_1080x2400) as [xs|] eqn:Hxs;
    [|by vm_compute in Hxs].
  destruct (horizontal_lines overlay_1080x2400) as [ys|] eqn:Hys;
    [|by vm_compute in Hys].
  exists xs, ys. split; [done|]. split; [done|].
  destruct (grid_lines_are_cell_edges overlay_1080x2400 xs ys 4 5 Hxs Hys)
    as (l & t & r & b & Hl & Hr & Ht & Hb & Hg); [simpl; lia..|].
  vm_compute in Hxs. injection Hxs as <-.
  vm_compute in Hys. injection Hys as <-.
  change (Z.to_nat 4) with 4%nat in *. change (Z.to_nat (4 + 1)) with 5%nat in *.
  change (Z.to_nat (5 - 1)) with 4%nat in *. change (Z.to_nat 5) with 5%nat in *.
  repeat (split; [reflexivity|]).
  vm_compute. reflexivity.
Defined.




Section InnerLabels.
Variable ov : GridOverlay Q.
Hypothesis Hcols : 1 <= cols (overlay_grid ov) <= 26.
Hypothesis Hrows : 1 <= rows (overlay_grid ov).
Hypothesis Hw : (0 < cell_width (overlay_grid ov))%Q.
Hypothesis Hh : (0 < cell_height (overlay_grid ov))%Q.




End InnerLabels.


(** The 18 inner labels of the 10 x 20 grid in binary64, each at its tap
    point. *)
Lemma inner_labels_1080x2400_binary64 :
  match _draw_inner_labels overlay_1080x2400 with
  | OK calls =>
      forallb (label_at_tap_point cfg_108x120) calls && (length calls =? 18)%nat
  | Raise _ => false
  end = true.
Proof. vm_compute. reflexivity. Qed.



Section EdgeLabels.
Variable ov : GridOverlay Q.
Hypothesis Hcols : 1 <= cols (overlay_grid ov) <= 26.
Hypothesis Hrows : 1 <= rows (overlay_grid ov).
Hypothesis Hw : (0 < cell_width (overlay_grid ov))%Q.
Hypothesis Hh : (0 < cell_height (overlay_grid ov))%Q.

End EdgeLabels.

(** ** The calculated grid *)


Section AutoGrid.
Context {F : Type} {PF : PyFloat F} {PR : PyRound F}.

(** In any arithmetic the calculated grid has 8 to 20 columns and 15 to 35
    rows. *)
Lemma calculate_grid_range (W H c r : Z) :
  _calculate_grid W H = OK (c, r) -> 8 <= c <= 20 /\ 15 <= r <= 35.
Proof.
  unfold _calculate_grid. intros Hg.
  destruct (int_truediv W 108) as [w|]; [|discriminate].
  cbn [mbind result_bind] in Hg.
  destruct (py_round w) as [c0|]; [|discriminate]. cbn [mbind result_bind] in Hg.
  destruct (int_truediv H 120) as [h|]; [|discriminate].
  cbn [mbind result_bind] in Hg.
  destruct (py_round h) as [r0|]; [|discriminate]. cbn [mbind result_bind] in Hg.
  injection Hg as <- <-. lia.
Qed.
End AutoGrid.



(** The grid of the default screen and of a small and a large one, as
    CPython computes them. *)
Lemma calculate_grid_binary64 :
  _calculate_grid (PF := binary64) 1080 2400 = OK (10, 20) /\
  _calculate_grid (PF := binary64) 720 1280 = OK (8, 15) /\
  _calculate_grid (PF := binary64) 2160 3840 = OK (20, 32) /\
  _calculate_grid (PF := binary64) 1350 2700 = OK (12, 22).
Proof. repeat split; vm_compute; reflexivity. Qed.

(** ** Samples of the further properties, and a list as explanation *)





Section Unhashable.
Context {world image : Type}.
Variable env : Collaborators world image.

Lemma len_set_error l e : len_set l = Raise e -> e = PyTypeError.
Proof. unfold len_set. destruct (forallb hashable l); [discriminate|]. by intros [= <-]. Qed.

Lemma repeated_click_error repr history e :
  repeated_click repr history = Raise e -> e = PyTypeError.
Proof.
  unfold repeated_click. destruct (forallb _ _); [|discriminate].
  destruct (len_set _) as [n|e'] eqn:Hn.
  - cbn [mbind result_bind]. destruct (_ <$> _); [discriminate|].
    destruct (_ && _); discriminate.
  - cbn [mbind result_bind]. intros [= <-]. by eapply len_set_error.
Qed.

(** X9: when the last of three or more entries of the history has a list
    or an object as its explanation, [get_action] raises [TypeError] while
    it builds the message, before any request is sent and outside the
    retries. *)
Theorem unhashable_explain_stops_request (task grid_image_b64 : string)
    (older : list dict) (e1 e2 e3 : dict) (max_retries : Z) (w : world) :
  hashable (get e3 "explain" (PStr "")) = false ->
  get_action env task grid_image_b64 (older ++ [e1; e2; e3]) max_retries w
  = (Raise PyTypeError, w).
Proof.
  intros Hex.
  assert (Hb : _build_user_message (repr_container env) task (older ++ [e1; e2; e3])
               = Raise PyTypeError).
  { unfold _build_user_message.
    destruct (older ++ [e1; e2; e3])%list as [|x l] eqn:Hl.
    { by destruct older. }
    rewrite <- Hl. rewrite !length_app. cbn [length].
    replace (2 <=? length older + 3)%nat with true by (symmetry; apply Nat.leb_le; lia).
    replace (3 <=? length older + 3)%nat with true by (symmetry; apply Nat.leb_le; lia).
    destruct (repeated_click _ _) as [w1|e] eqn:Hc.
    2:{ apply repeated_click_error in Hc as ->. reflexivity. }
    cbn [mbind result_bind].
    unfold repeated_explain. rewrite (last_n_app 3 older [e1; e2; e3]) by done.
    unfold len_set. cbn [fmap list_fmap forallb]. rewrite Hex.
    rewrite !andb_false_r. reflexivity. }
  unfold get_action, request_content. rewrite Hb. reflexivity.
Qed.
End Unhashable.

Lemma unhashable_explain_stops_request_witness :
  validate_dict click_list_explain = OK click_list_explain /\
  hashable (get click_list_explain "explain" (PStr "")) = false /\
  get_action (env_const PNone) "Open the app" "IMG"
    [click_E5; click_E5; click_list_explain] 3 tt = (Raise PyTypeError, tt).
Proof.
  split; [vm_compute; reflexivity|]. split; [reflexivity|].
  apply (unhashable_explain_stops_request (env_const PNone) "Open the app" "IMG"
           [] click_E5 click_E5 click_list_explain 3 tt).
  reflexivity.
Defined.
